(** * Dictionary converters (Bailey 1849, Gundert 1872, Sabdatharavali 1917)

    A shallow embedding of the entry parsers of the three converters
    ([bailey_to_dictpress.py], [gundert_to_dictpress.py],
    [stv_to_dictpress.py]) together with the fragments of the Python
    run time they rest on: [str] methods, the [re] module and
    [xml.etree.ElementTree] elements. *)

From Stdlib Require Import NArith Ascii String List Bool Lia Sorted.
From stdpp Require Import gmap list.

(** ** Python strings

    A Python [str] is a sequence of Unicode code points; [len], slicing,
    [str.find] and the character classes of [re] all count code points. *)

Definition char := N.
Definition str := list char.

(** Decoder of UTF-8, used only to write literals: [u "..."] is the
    Python string whose source text stands between the quotes. *)
Fixpoint utf8_decode (bs : list N) : str :=
  match bs with
  | [] => []
  | b0 :: t0 =>
    if (b0 <? 0x80)%N then b0 :: utf8_decode t0
    else match t0 with
    | [] => [b0]
    | b1 :: t1 =>
      if (b0 <? 0xE0)%N
      then ((b0 - 0xC0) * 0x40 + (b1 - 0x80))%N :: utf8_decode t1
      else match t1 with
      | [] => [b0; b1]
      | b2 :: t2 =>
        if (b0 <? 0xF0)%N
        then ((b0 - 0xE0) * 0x1000 + (b1 - 0x80) * 0x40 + (b2 - 0x80))%N
               :: utf8_decode t2
        else match t2 with
        | [] => [b0; b1; b2]
        | b3 :: t3 =>
          ((b0 - 0xF0) * 0x40000 + (b1 - 0x80) * 0x1000
             + (b2 - 0x80) * 0x40 + (b3 - 0x80))%N :: utf8_decode t3
        end
      end
    end
  end.

Definition u (s : string) : str :=
  utf8_decode (List.map N_of_ascii (list_ascii_of_string s)).
Arguments u s%_string.

Definition ch (a : ascii) : char := N_of_ascii a.
Arguments ch a%_char.

(** The part of the Unicode character database that the converters reach
    through [str.isupper], [int], [\d] and [re.IGNORECASE].  It belongs to
    the interpreter, not to the repository, so the embedding takes it as an
    interface. *)
Class UnicodeData := {
  (** [Py_UNICODE_TODECIMAL]: the value of a decimal digit (category Nd). *)
  to_decimal : char -> option N;
  (** [Py_UNICODE_ISLOWER], [Py_UNICODE_ISUPPER], [Py_UNICODE_ISTITLE]. *)
  is_lower : char -> bool;
  is_upper : char -> bool;
  is_title : char -> bool;
  (** [Py_UNICODE_TOLOWER], the simple lower-case mapping. *)
  to_lower : char -> char
}.

Definition in_range (a b : char) (c : char) : bool :=
  ((a <=? c) && (c <=? b))%N.
Arguments in_range (a b c)%_N.

(** The database restricted to Basic Latin and the Malayalam block, the
    alphabets of the three dictionaries; every other code point is taken
    as a caseless non-digit.  It serves to run the parsers on concrete
    lines. *)
Definition ucd_basic : UnicodeData := {|
  to_decimal c :=
    if in_range 0x30 0x39 c then Some (c - 0x30)%N
    else if in_range 0xD66 0xD6F c then Some (c - 0xD66)%N
    else None;
  is_lower c := in_range 0x61 0x7A c;
  is_upper c := in_range 0x41 0x5A c;
  is_title c := false;
  to_lower c := if in_range 0x41 0x5A c then (c + 0x20)%N else c
|}.

Module Py.

(** [Py_UNICODE_ISSPACE]: the characters removed by [str.strip()] and
    matched by [\s] in a [str] pattern. *)
Definition is_space (c : char) : bool :=
  in_range 0x09 0x0D c || in_range 0x1C 0x20 c
  || (c =? 0x85)%N || (c =? 0xA0)%N || (c =? 0x1680)%N
  || in_range 0x2000 0x200A c || (c =? 0x2028)%N || (c =? 0x2029)%N
  || (c =? 0x202F)%N || (c =? 0x205F)%N || (c =? 0x3000)%N.

Fixpoint lstrip (s : str) : str :=
  match s with
  | c :: t => if is_space c then lstrip t else s
  | [] => []
  end.

Definition rstrip (s : str) : str := rev (lstrip (rev s)).

Definition strip (s : str) : str := rstrip (lstrip s).

Fixpoint startswith (s p : str) : bool :=
  match p, s with
  | [], _ => true
  | a :: p', b :: s' => (a =? b)%N && startswith s' p'
  | _ :: _, [] => false
  end.

Definition endswith (s p : str) : bool := startswith (rev s) (rev p).

(** Truth value of a string: [bool(s)]. *)
Definition truthy (s : str) : bool :=
  match s with [] => false | _ => true end.

(** [s.find(c)] for a one-character needle; [None] stands for [-1]. *)
Fixpoint find (c : char) (s : str) : option nat :=
  match s with
  | [] => None
  | x :: t => if (x =? c)%N then Some 0 else S <$> find c t
  end.

(** [p in s] *)
Fixpoint contains (s p : str) : bool :=
  startswith s p ||
  match s with
  | [] => false
  | _ :: t => contains t p
  end.

(** [s.replace(c, '')] for a one-character [c]. *)
Definition remove_char (c : char) (s : str) : str :=
  List.filter (fun x => negb (x =? c)%N) s.

(** [sep.join(parts)] *)
Fixpoint join (sep : str) (parts : list str) : str :=
  match parts with
  | [] => []
  | [p] => p
  | p :: ps => p ++ sep ++ join sep ps
  end.

(** [s[:-1]] *)
Definition drop_last (s : str) : str := take (length s - 1) s.

Section WithUnicode.
Context {U : UnicodeData}.

(** [str.isupper()], following [unicode_isupper_impl]. *)
Definition isupper (s : str) : bool :=
  match s with
  | [] => false
  | [c] => is_upper c
  | _ => forallb (fun c => negb (is_lower c || is_title c)) s
         && existsb is_upper s
  end.

(** [int(s)] on a non-empty run of decimal digits. *)
Definition int_of_digits (s : str) : N :=
  fold_left (fun acc c => (10 * acc + default 0 (to_decimal c))%N) s 0%N.

End WithUnicode.

End Py.

(** ** The [re] module

    A backtracking matcher in continuation-passing style: alternation is
    ordered, repetition is greedy, and the first way to reach the end of
    the pattern wins, as in [sre]. *)
Module Re.

Inductive regex : Type :=
| Eps
| Chr (p : char -> bool)
| Seq (r1 r2 : regex)
| Alt (r1 r2 : regex)
| Star (r : regex)
| Grp (n : nat) (r : regex)
| Bol
| Eol.

Definition Plus (r : regex) : regex := Seq r (Star r).
Definition Opt (r : regex) : regex := Alt r Eps.
Definition Lit (c : char) : regex := Chr (N.eqb c).
Fixpoint Str (s : str) : regex :=
  match s with
  | [] => Eps
  | [c] => Lit c
  | c :: t => Seq (Lit c) (Str t)
  end.

Fixpoint seqs (rs : list regex) : regex :=
  match rs with
  | [] => Eps
  | [r] => r
  | r :: rs' => Seq r (seqs rs')
  end.
Fixpoint alts (rs : list regex) : regex :=
  match rs with
  | [] => Eps
  | [r] => r
  | r :: rs' => Alt r (alts rs')
  end.

Record cursor := Cursor { pos : nat; rest : str }.

(** Captured groups, the most recently closed first. *)
Definition caps := list (nat * str).

Definition cont := cursor -> caps -> option (cursor * caps).

(** Greedy repetition of [step].  An iteration that consumes nothing ends
    the loop, so [S (length (rest cu))] iterations always suffice. *)
Fixpoint star_loop (step : cont -> cont) (fuel : nat) (k : cont) : cont :=
  fun cu g =>
  match fuel with
  | O => k cu g
  | S f =>
    match step (fun cu' g' =>
                  if pos cu <? pos cu' then star_loop step f k cu' g'
                  else None) cu g with
    | Some m => Some m
    | None => k cu g
    end
  end.

Fixpoint rx (r : regex) (k : cont) {struct r} : cont :=
  fun cu g =>
  match r with
  | Eps => k cu g
  | Chr p =>
    match rest cu with
    | c :: t => if p c then k (Cursor (S (pos cu)) t) g else None
    | [] => None
    end
  | Seq r1 r2 => rx r1 (rx r2 k) cu g
  | Alt r1 r2 =>
    match rx r1 k cu g with
    | Some m => Some m
    | None => rx r2 k cu g
    end
  | Star r1 => star_loop (rx r1) (S (length (rest cu))) k cu g
  | Grp n r1 =>
    rx r1 (fun cu' g' =>
             k cu' ((n, take (pos cu' - pos cu) (rest cu)) :: g')) cu g
  | Bol => if pos cu =? 0 then k cu g else None
  | Eol =>
    match rest cu with
    | [] => k cu g
    | [c] => if (c =? 0x0A)%N then k cu g else None
    | _ => None
    end
  end.

Fixpoint ngroups (r : regex) : nat :=
  match r with
  | Seq r1 r2 | Alt r1 r2 => ngroups r1 `max` ngroups r2
  | Star r1 => ngroups r1
  | Grp n r1 => n `max` ngroups r1
  | _ => 0
  end.

(** A match object: span, matched text and groups. *)
Record mobj := Mobj {
  m_start : nat;
  m_end : nat;
  m_text : str;
  m_groups : caps
}.

Fixpoint assoc (n : nat) (g : caps) : option str :=
  match g with
  | [] => None
  | (n', s) :: g' => if n =? n' then Some s else assoc n g'
  end.

(** [m.group(n)] for [n >= 1]; [None] when the group took no part. *)
Definition group (n : nat) (m : mobj) : option str := assoc n (m_groups m).

(** One attempt at offset [i], where [s] is the subject from [i] on.
    [adv] is [state->must_advance]: an empty match is refused. *)
Definition match_at (r : regex) (adv : bool) (i : nat) (s : str)
  : option (mobj * str) :=
  match rx r (fun cu g => if adv && (pos cu =? i) then None else Some (cu, g))
           (Cursor i s) [] with
  | Some (cu, g) => Some (Mobj i (pos cu) (take (pos cu - i) s) g, rest cu)
  | None => None
  end.

(** Leftmost match at or after offset [i]: the text skipped, the match
    and the text after it. *)
Fixpoint search_from (r : regex) (adv : bool) (i : nat) (s : str)
  : option (str * mobj * str) :=
  match match_at r adv i s with
  | Some (m, after) => Some ([], m, after)
  | None =>
    match s with
    | [] => None
    | c :: t =>
      match search_from r false (S i) t with
      | Some (gap, m, after) => Some (c :: gap, m, after)
      | None => None
      end
    end
  end.

(** The scanner behind [finditer], [sub], [split] and [findall]: the
    successive non-overlapping matches, each with the text before it, and
    the text after the last one. *)
Fixpoint scan (fuel : nat) (r : regex) (adv : bool) (i : nat) (s : str)
  : list (str * mobj) * str :=
  match fuel with
  | O => ([], s)
  | S f =>
    match search_from r adv i s with
    | None => ([], s)
    | Some (gap, m, after) =>
      let '(ms, tl) := scan f r (m_end m =? m_start m) (m_end m) after in
      ((gap, m) :: ms, tl)
    end
  end.

Definition scan_all (r : regex) (s : str) : list (str * mobj) * str :=
  scan (S (length s)) r false 0 s.

(** [re.match(r, s)] and [re.search(r, s)] *)
Definition re_match (r : regex) (s : str) : option mobj :=
  fst <$> match_at r false 0 s.

Definition re_search (r : regex) (s : str) : option mobj :=
  (fun x => snd (fst x)) <$> search_from r false 0 s.

(** [re.sub(r, repl, s)] for a replacement without group references. *)
Definition re_sub (r : regex) (repl : str) (s : str) : str :=
  let '(ms, tl) := scan_all r s in
  concat (List.map (fun gm => fst gm ++ repl) ms) ++ tl.

(** [re.split(r, s)]: the pieces between the matches, each match
    contributing its groups.  A group that took no part would give [None];
    in the patterns split on here every group is mandatory, and the
    embedding writes the empty string for that case. *)
Definition re_split (r : regex) (s : str) : list str :=
  let '(ms, tl) := scan_all r s in
  concat (List.map
            (fun gm => fst gm ::
               List.map (fun n => default [] (group n (snd gm)))
                        (seq 1 (ngroups r))) ms) ++ [tl].

(** [re.findall(r, s)] for a pattern with at most one group. *)
Definition re_findall (r : regex) (s : str) : list str :=
  let '(ms, _) := scan_all r s in
  List.map (fun gm =>
              match ngroups r with
              | O => m_text (snd gm)
              | _ => default [] (group 1 (snd gm))
              end) ms.

(** Character classes. *)
Definition space : regex := Chr Py.is_space.
Definition any : regex := Chr (fun _ => true).
Definition one_of (l : list char) : char -> bool :=
  fun c => existsb (N.eqb c) l.

End Re.

(** ** Bailey's English-Malayalam dictionary: [bailey_to_dictpress.py] *)
Module Bailey.

(** [POS_MAPPING] *)
Definition POS_MAPPING : gmap str str := list_to_map [
  (u "a", u "adjective");
  (u "ad", u "adverb");
  (u "adv", u "adverb");
  (u "art", u "article");
  (u "conj", u "conjunction");
  (u "s", u "noun");
  (u "v. a", u "verb-transitive");
  (u "v. n", u "verb-intransitive");
  (u "v. a. & n", u "verb");
  (u "v. n. & a", u "verb");
  (u "prep", u "preposition");
  (u "pron", u "pronoun");
  (u "pron. poss", u "pronoun-possessive");
  (u "recip. pron", u "pronoun-reciprocal");
  (u "interj", u "interjection");
  (u "part", u "participle");
  (u "part. a", u "participle");
  (u "part. pass", u "participle-passive");
  (u "part. pass. & a", u "participle-passive");
  (u "pret", u "past-tense");
  (u "pret. & part", u "past-participle");
  (u "pret. & part. pass", u "past-participle-passive");
  (u "v. defect", u "verb-defective");
  (u "verb imper", u "verb-imperfect");
  (u "pl", u "plural");
  (u "plu", u "plural");
  (u "fem", u "feminine")
].

Record BaileyEntry := {
  headword : str;
  pos : str;
  definitions : str;
  line_number : nat;
  pos_normalized : str
}.

(** [BaileyEntry.__init__] *)
Definition BaileyEntry_init (headword pos definitions : str)
    (line_number : nat) : BaileyEntry :=
  let self_headword := Py.strip headword in
  let self_pos := if Py.truthy pos then Py.strip pos else [] in
  let self_definitions := Py.strip definitions in
  {| headword := self_headword;
     pos := self_pos;
     definitions := self_definitions;
     line_number := line_number;
     pos_normalized := default self_pos (POS_MAPPING !! self_pos) |}.

(** [r'\.\s+[\u0D00-\u0D7F]'] *)
Definition pos_end_pattern : Re.regex :=
  Re.seqs [Re.Lit (ch "."); Re.Plus Re.space; Re.Chr (in_range 0xD00 0xD7F)].

Section WithUnicode.
Context {U : UnicodeData}.

(** [parse_entry_line] *)
Definition parse_entry_line (line : str) (line_number : nat)
  : option BaileyEntry :=
  let line := Py.strip line in
  if negb (Py.truthy line) || Py.isupper line then None else
  match Py.find (ch ",") line with
  | None => None
  | Some comma_pos =>
    let headword := Py.strip (take comma_pos line) in
    let rest := Py.strip (drop (comma_pos + 1) line) in
    match Re.re_search pos_end_pattern rest with
    | None => None
    | Some pos_end_match =>
      let pos_end := Re.m_start pos_end_match in
      let pos := Py.strip (take pos_end rest) in
      let definitions := Py.strip (drop (pos_end + 1) rest) in
      let definitions :=
        if Py.endswith definitions (u ".")
        then Py.strip (Py.drop_last definitions)
        else definitions in
      Some (BaileyEntry_init headword pos definitions line_number)
    end
  end.

End WithUnicode.

(** [BaileyEntry.to_dictpress_row] *)
Definition to_dictpress_row (self : BaileyEntry) : list str := [
  headword self;
  [];
  definitions self;
  u "Bailey's English-Malayalam Dictionary (1849)";
  [];
  [];
  [];
  [];
  pos_normalized self;
  u "English";
  u "Malayalam"
].

(** The header row that [convert_bailey_to_dictpress] writes first. *)
Definition header_row : list str := [
  u "headword"; u "alternate_headwords"; u "definition";
  u "dictionary_name"; u "tsvector_language"; u "tsvector_tokens";
  u "link"; u "notes"; u "part_of_speech"; u "source_language";
  u "target_language"
].

(** The three lists that the reading loop of
    [convert_bailey_to_dictpress] fills. *)
Record Converted := {
  entries : list BaileyEntry;
  skipped_lines : list (nat * str);
  entries_with_unknown_pos : list (nat * str * str)
}.

Section Driver.
Context {U : UnicodeData}.

(** One turn of [for line_number, line in enumerate(f, start=1)]. *)
Definition convert_step (acc : Converted) (line_number : nat) (line : str)
  : Converted :=
  match parse_entry_line line line_number with
  | Some entry =>
    {| entries := entries acc ++ [entry];
       skipped_lines := skipped_lines acc;
       entries_with_unknown_pos :=
         if Py.truthy (pos entry)
            && bool_decide (pos_normalized entry = pos entry)
         then entries_with_unknown_pos acc
                ++ [(line_number, headword entry, pos entry)]
         else entries_with_unknown_pos acc |}
  | None =>
    {| entries := entries acc;
       skipped_lines :=
         if Py.truthy (Py.strip line) && negb (Py.isupper (Py.strip line))
         then skipped_lines acc ++ [(line_number, Py.strip line)]
         else skipped_lines acc;
       entries_with_unknown_pos := entries_with_unknown_pos acc |}
  end.

Fixpoint convert_loop (acc : Converted) (line_number : nat)
    (lines : list str) : Converted :=
  match lines with
  | [] => acc
  | line :: more =>
    convert_loop (convert_step acc line_number line) (S line_number) more
  end.

(** The reading loop of [convert_bailey_to_dictpress] over the lines of
    the input file. *)
Definition convert_lines (lines : list str) : Converted :=
  convert_loop {| entries := []; skipped_lines := [];
                  entries_with_unknown_pos := [] |} 1 lines.

(** The rows that [convert_bailey_to_dictpress] hands to the CSV writer. *)
Definition convert_rows (lines : list str) : list (list str) :=
  header_row :: List.map to_dictpress_row (entries (convert_lines lines)).

End Driver.

End Bailey.


(** ** Gundert's Malayalam-English dictionary: [gundert_to_dictpress.py] *)
Module Gundert.

(** [self.etymology_map] *)
Definition etymology_map : gmap str str := list_to_map [
  (u "S.", u "sanskrit");
  (u "T.", u "tamil");
  (u "M.", u "malayalam");
  (u "C.", u "canarese");
  (u "Te.", u "telugu");
  (u "Tu.", u "tulu");
  (u "So.", u "southern");
  (u "No.", u "northern");
  (u "V1.", u "verapoli1");
  (u "V2.", u "verapoli2");
  (u "TR.", u "tellicherry");
  (u "P.", u "persian");
  (u "Ar.", u "arabic");
  (u "Port.", u "portuguese");
  (u "E.", u "english");
  (u "H.", u "hindustani")
].

(** [self.citation_markers] *)
Definition citation_markers : list str := [
  u "TR."; u "Bhg."; u "CG."; u "KR."; u "TP."; u "PT."; u "AR."; u "Nal.";
  u "Bhr."; u "CC."; u "RC."; u "VyM."; u "KU."; u "Mud."; u "ChVr.";
  u "UR."; u "GP."; u "VCh."; u "MC."; u "MR."; u "Anj."; u "RS.";
  u "SiPu."; u "Bhag."; u "Nid."; u "Arb."; u "Matsy."; u "VivR."; u "Sab.";
  u "Tantr."; u "VetC."; u "Asht."; u "Gan."; u "GnP."; u "Rh."; u "PR.";
  u "Sk."; u "Tatw."; u "VedD."; u "KumK."; u "Sah."; u "Anach."; u "Si Pu."
].

(** The class [[അ-ൿ]], U+0D05 to U+0D7F. *)
Definition malayalam : char -> bool := in_range 0xD05 0xD7F.

(** The romanization class: [a-zA-Z] and the listed letters and
    combining marks. *)
Definition roman : char -> bool :=
  fun c => in_range 0x61 0x7A c || in_range 0x41 0x5A c
           || Re.one_of (u "ṭḍṇṟḷṅṁṃḥśṣāīūṛṝḹēōàèìòùâêîôûäëïöüãõñ̤̥̄̀̃") c.

(** [[അ-ൿa-zA-Z]] *)
Definition word_char : char -> bool :=
  fun c => malayalam c || in_range 0x61 0x7A c || in_range 0x41 0x5A c.

(** The two line-break patterns of [clean_text]:
    [r'<lb\s*/?\s*></?\s*lb\s*>'] and [r'<lb\s*/>']. *)
Definition lb_pair_pattern : Re.regex :=
  Re.seqs [Re.Str (u "<lb"); Re.Star Re.space; Re.Opt (Re.Lit (ch "/"));
           Re.Star Re.space; Re.Str (u "><"); Re.Opt (Re.Lit (ch "/"));
           Re.Star Re.space; Re.Str (u "lb"); Re.Star Re.space;
           Re.Lit (ch ">")].

Definition lb_single_pattern : Re.regex :=
  Re.seqs [Re.Str (u "<lb"); Re.Star Re.space; Re.Str (u "/>")].

(** [r'\s+'] *)
Definition spaces_pattern : Re.regex := Re.Plus Re.space.

Section Normalizer.
(** [BeautifulSoup(text, 'html.parser').get_text()], the tag stripper of
    the third-party library. *)
Variable get_text : str -> str.

(** [clean_text]; the argument is [str(element)], the markup of the
    paragraph (a [str] argument is its own [str()]). *)
Definition clean_text (element : str) : str :=
  let text := element in
  let text := Re.re_sub lb_pair_pattern [] text in
  let text := Re.re_sub lb_single_pattern [] text in
  let text := get_text text in
  let text := Re.re_sub spaces_pattern (u " ") text in
  Py.strip text.

End Normalizer.

(** A cross-reference: [{'type': ..., 'word': ...}]. *)
Record CrossRef := { ref_type : str; ref_word : str }.

(** A sense, the dict built by [parse_single_definition].  [citations]
    comes from [list(set(...))], whose order is unspecified: it is kept as
    a set. *)
Record Sense := {
  sense : N;
  sense_malayalam : str;
  sense_english : str;
  citations : gset str;
  cross_refs : list CrossRef;
  raw : str
}.

(** An entry, the dict built by [extract_entry]. *)
Record Entry := {
  malayalam_hw : str;
  romanization : str;
  etymology_marker : str;
  etymology : str;
  page : str;
  raw_definition : str;
  definitions : list Sense
}.

(** [r'^[അ-ൿ]+\s+[a-zA-Z...]+'] *)
Definition looks_like_pattern : Re.regex :=
  Re.seqs [Re.Bol; Re.Plus (Re.Chr malayalam); Re.Plus Re.space;
           Re.Plus (Re.Chr roman)].

Definition looks_like_entry (text : str) : bool :=
  bool_decide (is_Some (Re.re_match looks_like_pattern text)).

(** [r'[.!?]\s+'] *)
Definition sentence_pattern : Re.regex :=
  Re.seqs [Re.Chr (Re.one_of (u ".!?")); Re.Plus Re.space].

(** [r'\(=\s*([അ-ൿa-zA-Z]+)\)'] *)
Definition equals_pattern : Re.regex :=
  Re.seqs [Re.Str (u "(="); Re.Star Re.space;
           Re.Grp 1 (Re.Plus (Re.Chr word_char)); Re.Lit (ch ")")].

(** [r'opp\.\s+([അ-ൿa-zA-Z]+)'] *)
Definition opp_pattern : Re.regex :=
  Re.seqs [Re.Str (u "opp."); Re.Plus Re.space;
           Re.Grp 1 (Re.Plus (Re.Chr word_char))].

(** [extract_citations] *)
Definition extract_citations (text : str) : gset str :=
  let citations :=
    List.map (Py.remove_char (ch "."))
      (List.filter (fun marker => Py.contains text marker) citation_markers) in
  list_to_set citations.

Section WithUnicode.
Context {U : UnicodeData}.

(** [\d] in a [str] pattern: a decimal digit of any script. *)
Definition digit : Re.regex :=
  Re.Chr (fun c => bool_decide (is_Some (to_decimal c))).

(** Matching under [re.IGNORECASE], as [sre] compiles it: the subject
    character is lower-cased and compared with the lower-cased pattern
    characters and their entries in the table of equivalent letters, of
    which only [i] and [s] concern the letters used here. *)
Definition equivalents (lo : char) : list char :=
  if (lo =? 0x69)%N then [0x131%N]
  else if (lo =? 0x73)%N then [0x17F%N]
  else [].

Definition ic_member (x : char) (y : char) : bool :=
  let lx := to_lower x in
  let ly := to_lower y in
  (lx =? ly)%N || existsb (N.eqb lx) (equivalents ly).

Definition ic_lit (c : char) : Re.regex := Re.Chr (fun x => ic_member x c).

Definition chars_between (a b : N) : list char :=
  List.map (fun k => (a + N.of_nat k)%N) (seq 0 (N.to_nat (b + 1 - a))).

Definition word_chars : list char :=
  chars_between 0xD05 0xD7F ++ chars_between 0x61 0x7A
    ++ chars_between 0x41 0x5A.

Definition ic_word_char : char -> bool :=
  fun x => existsb (ic_member x) word_chars.

(** [r'see\s+([അ-ൿa-zA-Z]+)'] with [re.IGNORECASE] *)
Definition see_pattern : Re.regex :=
  Re.seqs [ic_lit (ch "s"); ic_lit (ch "e"); ic_lit (ch "e");
           Re.Plus Re.space; Re.Grp 1 (Re.Plus (Re.Chr ic_word_char))].

(** [extract_cross_refs] *)
Definition extract_cross_refs (text : str) : list CrossRef :=
  let equals_refs := Re.re_findall equals_pattern text in
  let refs := List.map (fun w => {| ref_type := u "synonym"; ref_word := w |})
                       equals_refs in
  let see_refs := Re.re_findall see_pattern text in
  let refs := refs ++
    List.map (fun w => {| ref_type := u "see_also"; ref_word := w |})
             see_refs in
  let opp_refs := Re.re_findall opp_pattern text in
  refs ++ List.map (fun w => {| ref_type := u "antonym"; ref_word := w |})
                   opp_refs.

(** The loop of [separate_languages] over the sentences. *)
Fixpoint separate_loop (sentences : list str) : list str * list str :=
  match sentences with
  | [] => ([], [])
  | sent :: more =>
    let '(malayalam_parts, english_parts) := separate_loop more in
    if bool_decide (is_Some (Re.re_search (Re.Chr malayalam) sent))
    then (sent :: malayalam_parts, english_parts)
    else if Py.truthy (Py.strip sent) && (2 <? length (Py.strip sent))
    then (malayalam_parts, sent :: english_parts)
    else (malayalam_parts, english_parts)
  end.

(** [separate_languages] *)
Definition separate_languages (text : str) : list str * list str :=
  let sentences := Re.re_split sentence_pattern text in
  separate_loop sentences.

(** [parse_single_definition] *)
Definition parse_single_definition (sense_num : N) (text : str) : Sense :=
  let citations := extract_citations text in
  let cross_refs := extract_cross_refs text in
  let '(malayalam_parts, english_parts) := separate_languages text in
  {| sense := sense_num;
     sense_malayalam := Py.strip (Py.join (u " ") malayalam_parts);
     sense_english := Py.strip (Py.join (u " ") english_parts);
     citations := citations;
     cross_refs := cross_refs;
     raw := Py.strip text |}.

(** [r'(?:^|\s)(\d+)\.\s+'] *)
Definition sense_pattern : Re.regex :=
  Re.seqs [Re.Alt Re.Bol Re.space; Re.Grp 1 (Re.Plus digit);
           Re.Lit (ch "."); Re.Plus Re.space].

(** The loop [for i in range(1, len(parts), 2)] of [parse_definitions],
    over [parts[1:]]: a number and the text after it at each turn. *)
Fixpoint numbered_senses (parts : list str) : list Sense :=
  match parts with
  | sense_num :: sense_text :: more =>
    parse_single_definition (Py.int_of_digits sense_num) sense_text
      :: numbered_senses more
  | _ => []
  end.

(** [parse_definitions] *)
Definition parse_definitions (text : str) : list Sense :=
  let parts := Re.re_split sense_pattern text in
  match parts with
  | [] => []
  | part0 :: more =>
    let lead :=
      if Py.truthy (Py.strip part0)
         && negb (Py.startswith (Py.strip part0) (u "("))
      then [parse_single_definition 0 part0]
      else [] in
    lead ++ numbered_senses more
  end.

(** The alternatives of the etymology marker in [extract_entry]. *)
Definition etymology_alternatives : Re.regex :=
  Re.alts [Re.Str (u "S."); Re.Str (u "T."); Re.Str (u "M.");
           Re.Str (u "C."); Re.Str (u "Te."); Re.Str (u "Tu.");
           Re.Str (u "So."); Re.Str (u "No.");
           Re.seqs [Re.Lit (ch "V"); digit; Re.Lit (ch ".")];
           Re.Str (u "TR."); Re.Str (u "P."); Re.Str (u "Ar.");
           Re.Str (u "Port."); Re.Str (u "E."); Re.Str (u "H.");
           Re.Str (u "Tdbh.")].

(** The pattern of [extract_entry], compiled with [re.DOTALL]: [^], the
    headword group [([അ-ൿ]+)], [\s+], the romanization group, the optional
    [(?:\s+(S\.|...|Tdbh\.))?], the group of all remaining characters
    and [$]. *)
Definition entry_pattern : Re.regex :=
  Re.seqs [Re.Bol; Re.Grp 1 (Re.Plus (Re.Chr malayalam)); Re.Plus Re.space;
           Re.Grp 2 (Re.Plus (Re.Chr roman));
           Re.Opt (Re.Seq (Re.Plus Re.space)
                          (Re.Grp 3 etymology_alternatives));
           Re.Grp 4 (Re.Star Re.any); Re.Eol].

(** [extract_entry] *)
Definition extract_entry (text : str) (page_num : str) : option Entry :=
  match Re.re_match entry_pattern text with
  | None => None
  | Some m =>
    let malayalam := default [] (Re.group 1 m) in
    let romanization := default [] (Re.group 2 m) in
    let etymology_marker :=
      match Re.group 3 m with
      | Some g3 => if Py.truthy g3 then g3 else []
      | None => []
      end in
    let definition_text := Py.strip (default [] (Re.group 4 m)) in
    if length definition_text <? 3 then None else
    Some {| malayalam_hw := malayalam;
            romanization := romanization;
            etymology_marker := etymology_marker;
            etymology := default [] (etymology_map !! etymology_marker);
            page := page_num;
            raw_definition := definition_text;
            definitions := parse_definitions definition_text |}
  end.

End WithUnicode.

End Gundert.



(** ** Sabdatharavali: [stv_to_dictpress.py] *)
Module STV.

(** An [xml.etree.ElementTree.Element]: tag, attributes, the text before
    the first child, the text after the end tag, and the children. *)
#[warnings="-register-all"] Inductive Element : Type :=
  mkElement (tag : str) (attrib : list (str * str))
            (text : option str) (tail : option str)
            (children : list Element).

Definition tag (e : Element) : str :=
  match e with mkElement t _ _ _ _ => t end.
Definition attrib (e : Element) : list (str * str) :=
  match e with mkElement _ a _ _ _ => a end.
Definition text (e : Element) : option str :=
  match e with mkElement _ _ x _ _ => x end.
Definition tail (e : Element) : option str :=
  match e with mkElement _ _ _ x _ => x end.
Definition children (e : Element) : list Element :=
  match e with mkElement _ _ _ _ cs => cs end.

Definition str_eqb (a b : str) : bool := bool_decide (a = b).

(** [e.findall(name)] and [e.find(name)] for a plain tag name: the direct
    children with that tag, in document order, and the first of them. *)
Definition findall (e : Element) (name : str) : list Element :=
  List.filter (fun c => str_eqb (tag c) name) (children e).

Definition find (e : Element) (name : str) : option Element :=
  head (findall e name).

(** [e.get(key, default)] *)
Fixpoint get (a : list (str * str)) (key : str) (dflt : str) : str :=
  match a with
  | [] => dflt
  | (k, v) :: a' => if str_eqb k key then v else get a' key dflt
  end.

(** A string that is [None] or empty is false. *)
Definition opt_truthy (s : option str) : bool :=
  match s with Some x => Py.truthy x | None => false end.

(** [get_text] *)
Fixpoint get_text (element : Element) : str :=
  let text_parts :=
    if opt_truthy (text element) then default [] (text element) else [] in
  let fix loop (cs : list Element) : str :=
    match cs with
    | [] => []
    | child :: cs' =>
      let child_text := get_text child in
      (if Py.truthy child_text then child_text else [])
      ++ (if str_eqb (tag child) (u "br") then u " " else [])
      ++ (if opt_truthy (tail child) then default [] (tail child) else [])
      ++ loop cs'
    end in
  Py.strip (text_parts ++ loop (children element)).

(** [get_text(element)] where [element] may be [None]. *)
Definition get_text_opt (element : option Element) : str :=
  match element with
  | None => []
  | Some e => get_text e
  end.

(** An item of [definitions]. *)
Record Definition_ := {
  def_type : str;
  def_text : str;
  example_type : option str;
  language : str
}.

Record CrossRef := { word : str; ref_type : str }.

Record Entry := {
  headword : str;
  grammar : str;
  definitions : list Definition_;
  cross_refs : list CrossRef;
  etymology : str
}.

Definition mk_item (kind : str) (e : Element) : list Definition_ :=
  let t := get_text e in
  if Py.truthy t
  then [{| def_type := kind; def_text := t; example_type := None;
           language := u "malayalam" |}]
  else [].

(** The body of the loops over [ex] elements. *)
Definition mk_example (ex : Element) : list Definition_ :=
  let ex_type := get (attrib ex) (u "type") (u "exm") in
  match find ex (u "ex_orig") with
  | Some ex_orig =>
    let t := get_text ex_orig in
    if Py.truthy t
    then [{| def_type := u "example"; def_text := t;
             example_type := Some ex_type; language := u "malayalam" |}]
    else []
  | None => []
  end.

(** The body of the loop over the nested [def] elements. *)
Definition sub_def_items (sub_def : Element) : list Definition_ :=
  concat (List.map (mk_item (u "definition")) (findall sub_def (u "deftext")))
  ++ concat (List.map (mk_item (u "explanation")) (findall sub_def (u "expl")))
  ++ concat (List.map mk_example (findall sub_def (u "ex"))).

Definition mk_ref (kref : Element) : list CrossRef :=
  let ref_text := get_text kref in
  let ref_type := get (attrib kref) (u "type") (u "rel") in
  if Py.truthy ref_text
  then [{| word := ref_text; ref_type := ref_type |}]
  else [].

(** [parse_entry] *)
Definition parse_entry (ar : Element) : option Entry :=
  let k_elements := findall ar (u "k") in
  match k_elements with
  | [] => None
  | k0 :: _ =>
    let headword := get_text k0 in
    if negb (Py.truthy headword) then None else
    match find ar (u "def") with
    | None => None
    | Some def_element =>
      let grammar := get_text_opt (find def_element (u "gr")) in
      let definitions :=
        concat (List.map (mk_item (u "definition"))
                         (findall def_element (u "deftext")))
        ++ concat (List.map sub_def_items (findall def_element (u "def")))
        ++ concat (List.map (mk_item (u "explanation"))
                            (findall def_element (u "expl")))
        ++ concat (List.map mk_example (findall def_element (u "ex"))) in
      let cross_refs :=
        match find def_element (u "sr") with
        | Some sr => concat (List.map mk_ref (findall sr (u "kref")))
        | None => []
        end in
      let etymology := get_text_opt (find def_element (u "etm")) in
      Some {| headword := headword;
              grammar := grammar;
              definitions := definitions;
              cross_refs := cross_refs;
              etymology := etymology |}
    end
  end.

End STV.


(** ** The tag stripper of BeautifulSoup

    [html_get_text] runs [BeautifulSoup(text, 'html.parser').get_text()] on
    the markup that [str(element)] produces for a paragraph of the TEI
    transcript: start and end tags are dropped, the five predefined
    character references are decoded, every other character is text.
    Comments, declarations and processing instructions do not occur in that
    markup and are not covered. *)
Module Bs4.

Definition is_letter (c : char) : bool :=
  in_range 0x41 0x5A c || in_range 0x61 0x7A c.

(** After a [<]: does a tag start here ([<x] or [</x]) and end in a [>]? *)
Definition tag_open (s : str) : bool :=
  match s with
  | c :: t =>
    (is_letter c
     || ((c =? 0x2F)%N && match t with d :: _ => is_letter d | [] => false end))
    && existsb (N.eqb 0x3E) s
  | [] => false
  end.

(** After a [&]: the character a reference stands for and its length. *)
Definition char_ref (s : str) : option (char * nat) :=
  if Py.startswith s (u "lt;") then Some (0x3C%N, 3)
  else if Py.startswith s (u "gt;") then Some (0x3E%N, 3)
  else if Py.startswith s (u "amp;") then Some (0x26%N, 4)
  else if Py.startswith s (u "quot;") then Some (0x22%N, 5)
  else if Py.startswith s (u "apos;") then Some (0x27%N, 5)
  else None.

Fixpoint walk (in_tag : bool) (skip : nat) (s : str) : str :=
  match s with
  | [] => []
  | c :: t =>
    match skip with
    | S n => walk in_tag n t
    | O =>
      if in_tag then walk (negb (c =? 0x3E)%N) 0 t
      else if (c =? 0x3C)%N && tag_open t then walk true 0 t
      else if (c =? 0x26)%N then
        match char_ref t with
        | Some (d, n) => d :: walk false n t
        | None => c :: walk false 0 t
        end
      else c :: walk false 0 t
    end
  end.

Definition html_get_text (text : str) : str := walk false 0 text.

End Bs4.

(** ** Notions used to state the properties *)

(** Text without markup characters: no [<] and no [&]. *)
Definition plain (s : str) : Prop :=
  Forall (fun c => c <> 0x3C%N /\ c <> 0x26%N) s.

(** A word: plain text without white space. *)
Definition word (s : str) : Prop :=
  Forall (fun c => c <> 0x3C%N /\ c <> 0x26%N /\ Py.is_space c = false) s.

(** The children of an element once every [k] child after the first is
    removed. *)
Fixpoint without_later_k (seen : bool) (cs : list STV.Element)
  : list STV.Element :=
  match cs with
  | [] => []
  | c :: cs' =>
    if STV.str_eqb (STV.tag c) (u "k")
    then (if seen then [] else [c]) ++ without_later_k true cs'
    else c :: without_later_k seen cs'
  end.

Definition first_k_only (ar : STV.Element) : STV.Element :=
  STV.mkElement (STV.tag ar) (STV.attrib ar) (STV.text ar) (STV.tail ar)
                (without_later_k false (STV.children ar)).


(** Greedy repetition of a character class, written by recursion on the
    subject: the longest run first, then each shorter one. *)
Fixpoint greedy (p : char -> bool) (k : Re.cont) (i : nat) (s : str)
    (g : Re.caps) : option (Re.cursor * Re.caps) :=
  match s with
  | c :: t =>
    if p c then
      match greedy p k (S i) t g with
      | Some m => Some m
      | None => k (Re.Cursor i s) g
      end
    else k (Re.Cursor i s) g
  | [] => k (Re.Cursor i []) g
  end.

(** White space collapsed to single spaces: a white-space character
    followed by another one disappears, the last of a run becomes a
    space. *)
Fixpoint collapse (s : str) : str :=
  match s with
  | [] => []
  | c :: t =>
    if Py.is_space c then
      match t with
      | d :: _ => if Py.is_space d then collapse t else 0x20%N :: collapse t
      | [] => [0x20%N]
      end
    else c :: collapse t
  end.

(** Every white-space character is a space and stands alone. *)
Fixpoint ws_normal (s : str) : Prop :=
  match s with
  | [] => True
  | c :: t =>
    (Py.is_space c = true ->
     c = 0x20%N /\ match t with d :: _ => Py.is_space d = false | [] => True end)
    /\ ws_normal t
  end.

Definition all_space (s : str) : Prop :=
  Forall (fun c => Py.is_space c = true) s.

Definition no_space (s : str) : Prop :=
  Forall (fun c => Py.is_space c = false) s.

(** A pattern that can only match at an occurrence of the character [c0]. *)
Definition begins_with (r : Re.regex) (c0 : char) : Prop :=
  forall k i s g, head s <> Some c0 -> Re.rx r k (Re.Cursor i s) g = None.

(** The result of a search once a prefix [a] has been skipped. *)
Definition skipped (a : str) (x : option (str * Re.mobj * str))
  : option (str * Re.mobj * str) :=
  match x with
  | Some (gap, m, after) => Some (a ++ gap, m, after)
  | None => None
  end.

(** The lead-in sense that [parse_definitions] makes of the text before
    the first numbered marker: none when that text is blank or, once
    stripped, begins with an open parenthesis. *)
Definition lead_sense {U : UnicodeData} (part0 : str) : list Gundert.Sense :=
  if Py.truthy (Py.strip part0)
     && negb (Py.startswith (Py.strip part0) (u "("))
  then [Gundert.parse_single_definition 0 part0]
  else [].

(** The text before the first numbered marker, the whole text when there
    is no marker. *)
Definition lead_text {U : UnicodeData} (text : str) : str :=
  match Re.re_search Gundert.sense_pattern text with
  | Some m => take (Re.m_start m) text
  | None => text
  end.

(** A sense without content: no text in either language, no citation and
    no cross-reference. *)
Definition empty_sense (s : Gundert.Sense) : Prop :=
  Gundert.sense_malayalam s = [] /\ Gundert.sense_english s = []
  /\ Gundert.citations s = ∅ /\ Gundert.cross_refs s = [].

(** The numbers of the groups of a pattern. *)
Fixpoint group_ids (r : Re.regex) : list nat :=
  match r with
  | Re.Seq r1 r2 | Re.Alt r1 r2 => group_ids r1 ++ group_ids r2
  | Re.Star r1 => group_ids r1
  | Re.Grp n r1 => n :: group_ids r1
  | _ => []
  end.

(** A step of the matcher delivers its result through its continuation,
    further on in the subject, and leaves the groups outside [ids]
    alone. *)
Definition delivers (ids : list nat) (step : Re.cont -> Re.cont) : Prop :=
  forall k cu g res,
    step k cu g = Some res ->
    exists cu' g',
      k cu' g' = Some res /\ Re.pos cu <= Re.pos cu'
      /\ forall n, n ∉ ids -> Re.assoc n g' = Re.assoc n g.


(** A line that the reading loop of the plain-text converter leaves out
    without recording it: blank, or written entirely in upper case. *)
Definition is_header {U : UnicodeData} (line : str) : bool :=
  negb (Py.truthy (Py.strip line)) || Py.isupper (Py.strip line).

(** The triple recorded for an entry whose grammar marker is not
    recognised. *)
Definition unknown_pos_report (e : Bailey.BaileyEntry) : nat * str * str :=
  (Bailey.line_number e, Bailey.headword e, Bailey.pos e).

Definition has_unknown_pos (e : Bailey.BaileyEntry) : bool :=
  Py.truthy (Bailey.pos e)
  && bool_decide (Bailey.pos_normalized e = Bailey.pos e).

(** [enumerate(lines, start=k)] *)
Definition enumerate (k : nat) (lines : list str) : list (nat * str) :=
  zip (seq k (length lines)) lines.

Definition parse_numbered {U : UnicodeData} (il : nat * str)
    : option Bailey.BaileyEntry :=
  Bailey.parse_entry_line il.2 il.1.

(** * Properties *)

(** ** Strings *)

Lemma lstrip_length (s : str) : length (Py.lstrip s) <= length s.
Proof.
  induction s as [|c t IH]; simpl; [lia|].
  destruct (Py.is_space c); simpl; lia.
Qed.

Lemma lstrip_fixed (s : str) :
  length (Py.lstrip s) = length s -> Py.lstrip s = s.
Proof.
  destruct s as [|c t]; simpl; [reflexivity|].
  destruct (Py.is_space c); [|reflexivity].
  pose proof (lstrip_length t). simpl. lia.
Qed.

Lemma lstrip_nonspace (c : char) (t : str) :
  Py.is_space c = false -> Py.lstrip (c :: t) = c :: t.
Proof. intros H. simpl. rewrite H. reflexivity. Qed.

Lemma lstrip_head (s : str) :
  Py.lstrip s = s ->
  match s with c :: _ => Py.is_space c = false | [] => True end.
Proof.
  destruct s as [|c t]; simpl; [trivial|].
  destruct (Py.is_space c); [|reflexivity].
  intros H. pose proof (lstrip_length t) as Hl.
  rewrite H in Hl. simpl in Hl. lia.
Qed.

Lemma lstrip_all_space (w s : str) :
  all_space w -> Py.lstrip (w ++ s) = Py.lstrip s.
Proof.
  induction 1 as [|c w Hc _ IH]; simpl; [reflexivity|].
  rewrite Hc. exact IH.
Qed.

Lemma lstrip_app (s t : str) :
  s <> [] -> Py.lstrip s = s -> Py.lstrip (s ++ t) = s ++ t.
Proof.
  intros Hne H. apply lstrip_head in H.
  destruct s as [|c s']; [congruence|].
  simpl. rewrite H. reflexivity.
Qed.

Lemma lstrip_idem (s : str) : Py.lstrip (Py.lstrip s) = Py.lstrip s.
Proof.
  induction s as [|c t IH]; simpl; [reflexivity|].
  destruct (Py.is_space c) eqn:Hc; [exact IH|].
  simpl. rewrite Hc. reflexivity.
Qed.

Lemma rstrip_length (s : str) : length (Py.rstrip s) <= length s.
Proof.
  unfold Py.rstrip. rewrite length_rev.
  pose proof (lstrip_length (rev s)) as H. rewrite length_rev in H. exact H.
Qed.

Lemma rstrip_snoc_nonspace (s : str) (c : char) :
  Py.is_space c = false -> Py.rstrip (s ++ [c]) = s ++ [c].
Proof.
  intros H. unfold Py.rstrip. rewrite rev_unit, lstrip_nonspace by exact H.
  simpl. rewrite rev_involutive. reflexivity.
Qed.

Lemma rstrip_all_space (s w : str) :
  all_space w -> Py.rstrip (s ++ w) = Py.rstrip s.
Proof.
  intros H. unfold Py.rstrip. rewrite rev_app_distr, lstrip_all_space.
  - reflexivity.
  - unfold all_space in *. apply Forall_forall. intros x Hx. apply list_elem_of_In, in_rev in Hx.
    rewrite Forall_forall in H. apply H, list_elem_of_In, Hx.
Qed.

Lemma rstrip_fixed (s : str) :
  length (Py.rstrip s) = length s -> Py.rstrip s = s.
Proof.
  unfold Py.rstrip. rewrite length_rev. intros H.
  rewrite lstrip_fixed, rev_involutive; [reflexivity|].
  rewrite H, length_rev. reflexivity.
Qed.

Lemma rstrip_idem (s : str) : Py.rstrip (Py.rstrip s) = Py.rstrip s.
Proof.
  unfold Py.rstrip. rewrite rev_involutive, lstrip_idem. reflexivity.
Qed.

(** [rstrip] leaves a string that is empty or ends in a character that is
    not white space. *)
Lemma rstrip_cases (s : str) :
  Py.rstrip s = [] \/
  exists t c, Py.rstrip s = t ++ [c] /\ Py.is_space c = false.
Proof.
  unfold Py.rstrip.
  destruct (Py.lstrip (rev s)) as [|c t] eqn:H; [left; reflexivity|].
  right. exists (rev t), c. split; [reflexivity|].
  pose proof (lstrip_idem (rev s)) as Hi. rewrite H in Hi.
  apply lstrip_head in Hi. exact Hi.
Qed.

Lemma lstrip_suffix (s : str) : exists w, s = w ++ Py.lstrip s /\ all_space w.
Proof.
  induction s as [|c t (w & Hw & Hs)]; simpl.
  - exists []. split; [reflexivity|constructor].
  - destruct (Py.is_space c) eqn:Hc.
    + exists (c :: w). split; [simpl; congruence|constructor; assumption].
    + exists []. split; [reflexivity|constructor].
Qed.

Lemma rstrip_prefix (s : str) : exists w, s = Py.rstrip s ++ w /\ all_space w.
Proof.
  unfold Py.rstrip.
  destruct (lstrip_suffix (rev s)) as (w & Hw & Hs).
  exists (rev w). split.
  - rewrite <- rev_app_distr, <- Hw, rev_involutive. reflexivity.
  - unfold all_space in *. apply Forall_forall. intros x Hx. apply list_elem_of_In, in_rev in Hx.
    rewrite Forall_forall in Hs. apply Hs, list_elem_of_In, Hx.
Qed.

(** The first character that [lstrip] keeps survives [rstrip]. *)
Lemma rstrip_keeps_head (c : char) (t : str) :
  Py.is_space c = false -> exists t', Py.rstrip (c :: t) = c :: t'.
Proof.
  intros Hc. induction t as [|d t IH] using rev_ind.
  - exists []. apply (rstrip_snoc_nonspace [] c Hc).
  - destruct (Py.is_space d) eqn:Hd.
    + destruct IH as (t' & IH). exists t'.
      change (c :: t ++ [d]) with ((c :: t) ++ [d]).
      rewrite rstrip_all_space; [exact IH|].
      constructor; [exact Hd|constructor].
    + exists (t ++ [d]).
      change (c :: t ++ [d]) with ((c :: t) ++ [d]).
      apply rstrip_snoc_nonspace, Hd.
Qed.

Lemma strip_idem (s : str) : Py.strip (Py.strip s) = Py.strip s.
Proof.
  unfold Py.strip.
  destruct (Py.lstrip s) as [|c t] eqn:H; [reflexivity|].
  assert (Hc : Py.is_space c = false).
  { pose proof (lstrip_idem s) as Hi. rewrite H in Hi.
    apply lstrip_head in Hi. exact Hi. }
  destruct (rstrip_keeps_head c t Hc) as (t' & Ht).
  rewrite Ht, lstrip_nonspace by exact Hc.
  rewrite <- Ht. apply rstrip_idem.
Qed.

(** A stripped string is left alone by both halves of [strip]. *)
Lemma strip_fixed (s : str) :
  Py.strip s = s -> Py.lstrip s = s /\ Py.rstrip s = s.
Proof.
  unfold Py.strip. intros H.
  assert (Hl : Py.lstrip s = s).
  { apply lstrip_fixed.
    pose proof (rstrip_length (Py.lstrip s)) as H1.
    pose proof (lstrip_length s) as H2.
    rewrite H in H1. lia. }
  split; [exact Hl|]. rewrite Hl in H. exact H.
Qed.

Lemma strip_no_space (s : str) : no_space s -> Py.strip s = s.
Proof.
  intros H. unfold Py.strip.
  assert (Hl : Py.lstrip s = s).
  { destruct H as [|c t Hc _]; [reflexivity|]. apply lstrip_nonspace, Hc. }
  rewrite Hl.
  destruct s as [|c t] using rev_ind; [reflexivity|].
  apply rstrip_snoc_nonspace.
  apply Forall_app in H as [_ H]. apply Forall_cons in H as [H _]. exact H.
Qed.

(** A string that starts and ends outside white space is stripped. *)
Lemma strip_between (c d : char) (s : str) :
  Py.is_space c = false -> Py.is_space d = false ->
  Py.strip (c :: s ++ [d]) = c :: s ++ [d].
Proof.
  intros Hc Hd. unfold Py.strip. rewrite lstrip_nonspace by exact Hc.
  change (c :: s ++ [d]) with ((c :: s) ++ [d]).
  apply rstrip_snoc_nonspace, Hd.
Qed.

Lemma find_app (c : char) (a b : str) :
  c ∉ a -> Py.find c (a ++ c :: b) = Some (length a).
Proof.
  induction a as [|x a IH]; simpl; intros H.
  - rewrite N.eqb_refl. reflexivity.
  - apply not_elem_of_cons in H as [Hx Ha].
    destruct (N.eqb_spec x c) as [->|_]; [congruence|].
    rewrite IH by exact Ha. reflexivity.
Qed.

Lemma endswith_snoc (s : str) (c : char) : Py.endswith (s ++ [c]) [c] = true.
Proof.
  unfold Py.endswith. rewrite rev_unit. simpl.
  rewrite N.eqb_refl. destruct (rev s); reflexivity.
Qed.

Lemma drop_last_snoc (s : str) (c : char) : Py.drop_last (s ++ [c]) = s.
Proof.
  unfold Py.drop_last. rewrite length_app. simpl.
  replace (length s + 1 - 1) with (length s) by lia.
  apply take_app_length.
Qed.

(** ** Citations *)

Lemma NoDup_map_filter {A B} (g : A -> B) (f : A -> bool) (l : list A) :
  NoDup (List.map g l) -> NoDup (List.map g (List.filter f l)).
Proof.
  induction l as [|a l IH]; simpl; intros H; [constructor|].
  apply NoDup_cons in H as [Hn Hd].
  destruct (f a); simpl; [|auto].
  apply NoDup_cons. split; [|auto].
  intros Hin. apply Hn.
  apply list_elem_of_In, in_map_iff in Hin as (x & <- & Hx).
  apply filter_In in Hx as [Hx _].
  apply list_elem_of_In, in_map_iff. eauto.
Qed.

Lemma citation_names_distinct :
  NoDup (List.map (Py.remove_char (ch ".")) Gundert.citation_markers).
Proof. apply (bool_decide_unpack _). vm_compute. exact I. Qed.

Lemma elem_of_extract_citations (text c : str) :
  c ∈ Gundert.extract_citations text <->
  exists marker, marker ∈ Gundert.citation_markers
                 /\ Py.contains text marker = true
                 /\ c = Py.remove_char (ch ".") marker.
Proof.
  unfold Gundert.extract_citations.
  rewrite elem_of_list_to_set, list_elem_of_In, in_map_iff.
  split.
  - intros (m & <- & Hm). apply filter_In in Hm as [Hm Hc].
    exists m. rewrite list_elem_of_In. auto.
  - intros (m & Hm & Hc & ->). exists m. split; [reflexivity|].
    apply filter_In. rewrite <- list_elem_of_In. auto.
Qed.

(** C9, as the code has it.  [extract_citations] returns a set (so
    without duplicates) that holds, for exactly the markers of
    [citation_markers] occurring as a substring of the text, the marker
    with its periods removed; every occurring marker counts once, however
    often it occurs, and a text in which a single marker occurs (any
    number of times) yields a set of size 1. *)
Theorem extract_citations_exact (text : str) :
  (forall c, c ∈ Gundert.extract_citations text <->
     exists marker, marker ∈ Gundert.citation_markers
                    /\ Py.contains text marker = true
                    /\ c = Py.remove_char (ch ".") marker)
  /\ size (Gundert.extract_citations text)
     = length (List.filter (fun marker => Py.contains text marker)
                           Gundert.citation_markers)
  /\ (forall marker, marker ∈ Gundert.citation_markers ->
        Py.contains text marker = true ->
        (forall other, other ∈ Gundert.citation_markers ->
           Py.contains text other = true -> other = marker) ->
        Gundert.extract_citations text = {[ Py.remove_char (ch ".") marker ]}
        /\ size (Gundert.extract_citations text) = 1).
Proof.
  split; [intros c; apply elem_of_extract_citations|].
  split.
  - unfold Gundert.extract_citations.
    rewrite size_list_to_set, length_map; [reflexivity|].
    apply NoDup_map_filter, citation_names_distinct.
  - intros m Hm Hc Honly.
    assert (Heq : Gundert.extract_citations text
                  = {[ Py.remove_char (ch ".") m ]}).
    { apply set_eq. intros c. rewrite elem_of_extract_citations.
      rewrite elem_of_singleton. split.
      - intros (m' & Hm' & Hc' & ->). f_equal. auto.
      - intros ->. eauto. }
    split; [exact Heq|]. rewrite Heq. apply size_singleton.
Qed.

(** C9 fails as stated: the marker [TR.] occurs in the text, and the
    set returned holds the name [TR], not the marker. *)
Lemma citation_without_period :
  u "TR." ∈ Gundert.citation_markers
  /\ Py.contains (u "Wedge TR. 12") (u "TR.") = true
  /\ (u "TR." ∉ Gundert.extract_citations (u "Wedge TR. 12"))
  /\ Gundert.extract_citations (u "Wedge TR. 12") = {[ u "TR" ]}.
Proof.
  assert (E : Gundert.extract_citations (u "Wedge TR. 12") = {[ u "TR" ]})
    by (vm_compute; reflexivity).
  split; [apply (bool_decide_unpack _); vm_compute; exact I|].
  split; [vm_compute; reflexivity|].
  split; [|exact E].
  rewrite E, elem_of_singleton. vm_compute. discriminate.
Qed.

Lemma extract_citations_exact_witness :
  Gundert.extract_citations (u "see TR. 12 and again TR. 40")
    = {[ u "TR" ]}
  /\ size (Gundert.extract_citations (u "see TR. 12 and again TR. 40")) = 1.
Proof.
  apply (proj2 (proj2 (extract_citations_exact
                         (u "see TR. 12 and again TR. 40"))) (u "TR.")).
  - apply (bool_decide_unpack _). vm_compute. exact I.
  - vm_compute. reflexivity.
  - intros other Ho Hc.
    assert (H : forallb (fun o => implb
                (Py.contains (u "see TR. 12 and again TR. 40") o)
                (bool_decide (o = u "TR."))) Gundert.citation_markers = true)
      by (vm_compute; reflexivity).
    rewrite forallb_forall in H. apply list_elem_of_In in Ho.
    specialize (H other Ho). rewrite Hc in H. simpl in H.
    apply bool_decide_eq_true in H. exact H.
Defined.

(** ** Headwords of the XDXF dialect *)

Lemma filter_without_later_k (name : str) (seen : bool)
    (cs : list STV.Element) :
  name <> u "k" ->
  List.filter (fun c => STV.str_eqb (STV.tag c) name)
              (without_later_k seen cs)
  = List.filter (fun c => STV.str_eqb (STV.tag c) name) cs.
Proof.
  intros Hne. revert seen.
  induction cs as [|c cs IH]; intros seen; simpl; [reflexivity|].
  destruct (STV.str_eqb (STV.tag c) (u "k")) eqn:Hk.
  - apply bool_decide_eq_true in Hk.
    assert (Hn : STV.str_eqb (STV.tag c) name = false).
    { apply bool_decide_eq_false. congruence. }
    rewrite List.filter_app, IH, Hn.
    destruct seen; simpl; rewrite ?Hn; reflexivity.
  - simpl. rewrite IH. reflexivity.
Qed.

Lemma filter_k_without_later_k (cs : list STV.Element) :
  List.filter (fun c => STV.str_eqb (STV.tag c) (u "k"))
              (without_later_k true cs) = [].
Proof.
  induction cs as [|c cs IH]; simpl; [reflexivity|].
  destruct (STV.str_eqb (STV.tag c) (u "k")) eqn:Hk; simpl.
  - exact IH.
  - rewrite Hk. exact IH.
Qed.

Lemma head_k_without_later_k (cs : list STV.Element) :
  List.filter (fun c => STV.str_eqb (STV.tag c) (u "k"))
              (without_later_k false cs)
  = match List.filter (fun c => STV.str_eqb (STV.tag c) (u "k")) cs with
    | [] => []
    | k0 :: _ => [k0]
    end.
Proof.
  induction cs as [|c cs IH]; simpl; [reflexivity|].
  destruct (STV.str_eqb (STV.tag c) (u "k")) eqn:Hk; simpl.
  - rewrite Hk, filter_k_without_later_k. reflexivity.
  - rewrite Hk. exact IH.
Qed.



(** In the XDXF dialect an entry never has an empty headword. *)
Lemma stv_headword_nonempty (ar : STV.Element) (e : STV.Entry) :
  STV.parse_entry ar = Some e -> STV.headword e <> [].
Proof.
  unfold STV.parse_entry.
  destruct (STV.findall ar (u "k")) as [|k0 ks]; [discriminate|].
  destruct (STV.get_text k0) eqn:Hk; simpl; [discriminate|].
  destruct (STV.find ar (u "def")); [|discriminate].
  intros [= <-]. simpl. discriminate.
Qed.

(** ** Concrete lines and paragraphs *)

Section Concrete.
#[local] Existing Instance ucd_basic.

(** C2. The line [", s. അ."], which begins with its separator, is parsed
    into an entry whose headword is the empty string: the plain-text
    parser does not discard it. *)
Theorem parse_entry_line_empty_headword :
  Bailey.parse_entry_line (u ", s. അ.") 1
  = Some {| Bailey.headword := [];
            Bailey.pos := u "s";
            Bailey.definitions := u "അ";
            Bailey.line_number := 1;
            Bailey.pos_normalized := u "noun" |}.
Proof. vm_compute. reflexivity. Qed.

End Concrete.

(** C3. The head line ["അക്ഷം akšam S. 1. Eye. 2. wheel."] is not
    recognised: its headword ends in the anusvara U+0D02, which lies
    outside the class from U+0D05 to U+0D7F, so neither
    [looks_like_entry] nor [extract_entry] accepts it and no entry is
    produced. *)
Theorem extract_entry_aksam_rejected (U : UnicodeData) (page_num : str) :
  Gundert.looks_like_entry (u "അക്ഷം akšam S. 1. Eye. 2. wheel.") = false
  /\ Gundert.extract_entry (u "അക്ഷം akšam S. 1. Eye. 2. wheel.") page_num
     = None.
Proof. split; vm_compute; reflexivity. Qed.

(** The same head line without the anusvara is accepted, but the
    romanization stops before the letter [š], which the romanization class
    does not list, so the marker [S.] is not read and the etymology is
    empty. *)
Lemma extract_entry_caron :
  exists e,
    Gundert.extract_entry (U := ucd_basic)
      (u "അക്ഷ akšam S. 1. Eye. 2. wheel.") (u "23") = Some e
    /\ Gundert.romanization e = u "ak"
    /\ Gundert.etymology_marker e = []
    /\ Gundert.etymology e = [].
Proof. vm_compute. eexists. repeat split. Qed.

(** ** The matcher *)

Lemma rx_seq (a b : Re.regex) (k : Re.cont) (cu : Re.cursor) (g : Re.caps) :
  Re.rx (Re.Seq a b) k cu g = Re.rx a (Re.rx b k) cu g.
Proof. reflexivity. Qed.

Lemma rx_chr_cons (p : char -> bool) (k : Re.cont) (i : nat) (c : char)
    (t : str) (g : Re.caps) :
  Re.rx (Re.Chr p) k (Re.Cursor i (c :: t)) g
  = if p c then k (Re.Cursor (S i) t) g else None.
Proof. reflexivity. Qed.

Lemma star_loop_chr (p : char -> bool) (k : Re.cont) (s : str) :
  forall fuel i g, length s < fuel ->
    Re.star_loop (Re.rx (Re.Chr p)) fuel k (Re.Cursor i s) g
    = greedy p k i s g.
Proof.
  induction s as [|c t IH]; intros fuel i g Hf;
    (destruct fuel as [|f]; [simpl in Hf; lia|]); simpl.
  - reflexivity.
  - destruct (p c); [|reflexivity].
    replace (i <? S i) with true by (symmetry; apply Nat.ltb_lt; lia).
    rewrite IH by (simpl in Hf; lia). reflexivity.
Qed.

Lemma rx_star_chr (p : char -> bool) (k : Re.cont) (i : nat) (s : str)
    (g : Re.caps) :
  Re.rx (Re.Star (Re.Chr p)) k (Re.Cursor i s) g = greedy p k i s g.
Proof.
  change (Re.rx (Re.Star (Re.Chr p)) k (Re.Cursor i s) g)
    with (Re.star_loop (Re.rx (Re.Chr p)) (S (length s)) k (Re.Cursor i s) g).
  apply star_loop_chr. lia.
Qed.

Lemma rx_plus_chr (p : char -> bool) (k : Re.cont) (i : nat) (s : str)
    (g : Re.caps) :
  Re.rx (Re.Plus (Re.Chr p)) k (Re.Cursor i s) g
  = match s with
    | c :: t => if p c then greedy p k (S i) t g else None
    | [] => None
    end.
Proof.
  unfold Re.Plus.
  change (Re.rx (Re.Seq (Re.Chr p) (Re.Star (Re.Chr p))) k (Re.Cursor i s) g)
    with (Re.rx (Re.Chr p) (Re.rx (Re.Star (Re.Chr p)) k) (Re.Cursor i s) g).
  destruct s as [|c t]; [reflexivity|].
  change (Re.rx (Re.Chr p) (Re.rx (Re.Star (Re.Chr p)) k)
                (Re.Cursor i (c :: t)) g)
    with (if p c then Re.rx (Re.Star (Re.Chr p)) k (Re.Cursor (S i) t) g
          else None).
  rewrite rx_star_chr. reflexivity.
Qed.

(** A run of the class followed by a character outside it: the greedy
    loop hands exactly that point to the continuation first. *)
Lemma greedy_run (p : char -> bool) (k : Re.cont) (w : str) (d : char)
    (t : str) (i : nat) (g : Re.caps) (m : Re.cursor * Re.caps) :
  Forall (fun c => p c = true) w -> p d = false ->
  k (Re.Cursor (i + length w) (d :: t)) g = Some m ->
  greedy p k i (w ++ d :: t) g = Some m.
Proof.
  intros Hw Hd. revert i.
  induction Hw as [|c w Hc _ IH]; intros i Hk; simpl.
  - rewrite Hd. rewrite Nat.add_0_r in Hk. exact Hk.
  - rewrite Hc, IH; [reflexivity|].
    simpl in Hk. rewrite <- Nat.add_succ_comm in Hk. exact Hk.
Qed.

Lemma greedy_run_end (p : char -> bool) (k : Re.cont) (w : str)
    (i : nat) (g : Re.caps) (m : Re.cursor * Re.caps) :
  Forall (fun c => p c = true) w ->
  k (Re.Cursor (i + length w) []) g = Some m ->
  greedy p k i w g = Some m.
Proof.
  intros Hw. revert i.
  induction Hw as [|c w Hc _ IH]; intros i Hk; simpl.
  - rewrite Nat.add_0_r in Hk. exact Hk.
  - rewrite Hc, IH; [reflexivity|].
    simpl in Hk. rewrite <- Nat.add_succ_comm in Hk. exact Hk.
Qed.

Lemma match_at_none (r : Re.regex) (adv : bool) (i : nat) (s : str) :
  (forall k g, Re.rx r k (Re.Cursor i s) g = None) ->
  Re.match_at r adv i s = None.
Proof. intros H. unfold Re.match_at. rewrite H. reflexivity. Qed.

Lemma search_skip (r : Re.regex) (c0 : char) (a s : str) :
  begins_with r c0 -> c0 ∉ a ->
  forall i, Re.search_from r false i (a ++ s)
            = skipped a (Re.search_from r false (i + length a) s).
Proof.
  intros Hr. induction a as [|x a IH]; intros Ha i; simpl.
  - rewrite Nat.add_0_r.
    destruct (Re.search_from r false i s) as [[[gap m] after]|]; reflexivity.
  - apply not_elem_of_cons in Ha as [Hx Ha].
    rewrite match_at_none.
    2:{ intros k g. apply Hr. simpl. congruence. }
    rewrite IH by exact Ha. rewrite <- Nat.add_succ_comm.
    destruct (Re.search_from r false (S i + length a) s)
      as [[[gap m] after]|]; reflexivity.
Qed.

Lemma search_absent (r : Re.regex) (c0 : char) (s : str) (i : nat) :
  begins_with r c0 -> c0 ∉ s -> Re.search_from r false i s = None.
Proof.
  intros Hr Hs.
  rewrite <- (app_nil_r s), (search_skip r c0 s []) by assumption.
  simpl. rewrite match_at_none; [reflexivity|].
  intros k g. apply Hr. simpl. congruence.
Qed.

Lemma re_sub_no_match (r : Re.regex) (repl s : str) :
  Re.search_from r false 0 s = None -> Re.re_sub r repl s = s.
Proof.
  intros H. unfold Re.re_sub, Re.scan_all. simpl. rewrite H. reflexivity.
Qed.

Lemma search_gap (r : Re.regex) (s : str) :
  forall adv i gap m after,
    Re.search_from r adv i s = Some (gap, m, after) ->
    gap = take (Re.m_start m - i) s /\ Re.m_start m = i + length gap.
Proof.
  induction s as [|c t IH]; intros adv i gap m after; simpl.
  - unfold Re.match_at.
    destruct (Re.rx r _ _ _) as [[cu g]|]; [|discriminate].
    intros [= <- <- <-]. simpl. rewrite Nat.sub_diag. split; [reflexivity|lia].
  - unfold Re.match_at.
    destruct (Re.rx r _ _ _) as [[cu g]|].
    + intros [= <- <- <-]. simpl. rewrite Nat.sub_diag.
      split; [reflexivity|lia].
    + destruct (Re.search_from r false (S i) t) as [[[gap' m'] after']|] eqn:E;
        [|discriminate].
      intros [= <- <- <-].
      destruct (IH _ _ _ _ _ E) as [Hg Hm].
      rewrite Hm. simpl. split; [|lia].
      replace (S (i + length gap') - i) with (S (length gap')) by lia.
      simpl. f_equal. rewrite Hg at 1. f_equal. lia.
Qed.

Lemma star_loop_delivers (ids : list nat) (step : Re.cont -> Re.cont) :
  delivers ids step -> forall fuel, delivers ids (Re.star_loop step fuel).
Proof.
  intros Hs fuel. induction fuel as [|f IH]; intros k cu g res; simpl.
  - intros H. exists cu, g. auto.
  - destruct (step _ cu g) as [m|] eqn:E.
    + intros [= ->]. apply Hs in E as (cu1 & g1 & E & Hp & Hg).
      destruct (Re.pos cu <? Re.pos cu1); [|discriminate].
      apply IH in E as (cu2 & g2 & E & Hp2 & Hg2).
      exists cu2, g2. split; [exact E|]. split; [lia|].
      intros n Hn. rewrite Hg2, Hg by exact Hn. reflexivity.
    + intros H. exists cu, g. auto.
Qed.

Lemma rx_delivers (r : Re.regex) : delivers (group_ids r) (Re.rx r).
Proof.
  induction r as [|p|r1 IH1 r2 IH2|r1 IH1 r2 IH2|r1 IH1|n r1 IH1| |];
    intros k cu g res; cbn [Re.rx group_ids].
  - intros H. exists cu, g. auto.
  - destruct cu as [i [|c t]]; cbn [Re.rest Re.pos]; [discriminate|].
    destruct (p c); [|discriminate].
    intros H. eexists _, g. split; [exact H|]. simpl. split; [lia|auto].
  - intros H. apply IH1 in H as (cu1 & g1 & H & Hp1 & Hg1).
    apply IH2 in H as (cu2 & g2 & H & Hp2 & Hg2).
    exists cu2, g2. split; [exact H|]. split; [lia|].
    intros n Hn. apply not_elem_of_app in Hn as [Hn1 Hn2].
    rewrite Hg2, Hg1 by assumption. reflexivity.
  - destruct (Re.rx r1 k cu g) as [m|] eqn:E.
    + intros [= ->]. apply IH1 in E as (cu1 & g1 & E & Hp & Hg).
      exists cu1, g1. split; [exact E|]. split; [exact Hp|].
      intros n Hn. apply not_elem_of_app in Hn as [Hn _]. auto.
    + intros E2. apply IH2 in E2 as (cu1 & g1 & E2 & Hp & Hg).
      exists cu1, g1. split; [exact E2|]. split; [exact Hp|].
      intros n Hn. apply not_elem_of_app in Hn as [_ Hn]. auto.
  - apply star_loop_delivers, IH1.
  - intros H. apply IH1 in H as (cu1 & g1 & H & Hp & Hg).
    eexists cu1, _. split; [exact H|]. split; [exact Hp|].
    intros m Hm. apply not_elem_of_cons in Hm as [Hne Hm].
    cbn [Re.assoc]. destruct (Nat.eqb_spec m n); [congruence|]. auto.
  - destruct (Re.pos cu =? 0); [|discriminate].
    intros H. exists cu, g. auto.
  - intros H. exists cu, g. split; [|auto].
    destruct (Re.rest cu) as [|c [|d t]]; try discriminate; [exact H|].
    destruct (c =? 10)%N; [exact H|discriminate].
Qed.

Lemma rx_bol_start (r : Re.regex) (k : Re.cont) (s : str) (g : Re.caps) :
  Re.rx (Re.Seq Re.Bol r) k (Re.Cursor 0 s) g = Re.rx r k (Re.Cursor 0 s) g.
Proof. reflexivity. Qed.

(** A pattern that opens with group 1 around a non-empty run of a class
    captures a non-empty text in that group. *)
Lemma first_group_nonempty (p : char -> bool) (r : Re.regex) (s : str)
    (cu : Re.cursor) (g : Re.caps) :
  1 ∉ group_ids r ->
  Re.rx (Re.Seq (Re.Grp 1 (Re.Plus (Re.Chr p))) r)
        (fun cu g => Some (cu, g)) (Re.Cursor 0 s) [] = Some (cu, g) ->
  exists c t, Re.assoc 1 g = Some (c :: t).
Proof.
  intros Hr E. rewrite rx_seq in E.
  change (Re.rx (Re.Grp 1 (Re.Plus (Re.Chr p)))
                (Re.rx r (fun cu g => Some (cu, g))) (Re.Cursor 0 s) [])
    with (Re.rx (Re.Plus (Re.Chr p))
            (fun cu' g' =>
               Re.rx r (fun cu g => Some (cu, g)) cu'
                     ((1, take (Re.pos cu' - 0) s) :: g'))
            (Re.Cursor 0 s) []) in E.
  rewrite rx_plus_chr in E.
  destruct s as [|c t]; [discriminate|].
  destruct (p c); [|discriminate].
  rewrite <- rx_star_chr in E.
  apply rx_delivers in E as (cu1 & g1 & E & Hp & _).
  apply rx_delivers in E as (cu2 & g2 & E & _ & Hg).
  injection E as <- <-. rewrite Hg by exact Hr.
  cbn [Re.pos] in Hp. cbn [Re.assoc Nat.eqb].
  destruct (Re.pos cu1 - 0) as [|n] eqn:En; [lia|].
  exists c, (take n t). reflexivity.
Qed.


(** ** Senses *)

Section Senses.
Context {U : UnicodeData}.

Lemma numbered_senses_length (f : str * Re.mobj -> str)
    (ms : list (str * Re.mobj)) (tl : str) :
  forall n,
    length (Gundert.numbered_senses
              (n :: concat (List.map (fun gm => [fst gm; f gm]) ms) ++ [tl]))
    = S (length ms).
Proof.
  induction ms as [|gm ms IH]; intros n; [reflexivity|].
  exact (f_equal S (IH (f gm))).
Qed.

(** What [parse_definitions] returns, by cases on the first search for a
    numbered marker. *)
Lemma parse_definitions_cases (text : str) :
  match Re.search_from Gundert.sense_pattern false 0 text with
  | None => Gundert.parse_definitions text = lead_sense text
  | Some (gap, m, after) =>
    exists numbered,
      Gundert.parse_definitions text = lead_sense gap ++ numbered
      /\ length numbered
         = length (Re.re_findall Gundert.sense_pattern text)
      /\ numbered <> []
  end.
Proof.
  unfold Gundert.parse_definitions, Re.re_split, Re.re_findall, Re.scan_all.
  change (Re.ngroups Gundert.sense_pattern) with 1.
  cbn [Re.scan seq List.map].
  destruct (Re.search_from Gundert.sense_pattern false 0 text)
    as [[[gap m] after]|].
  2:{ cbn [List.map concat app]. unfold lead_sense.
      rewrite app_nil_r. reflexivity. }
  destruct (Re.scan (length text) Gundert.sense_pattern _ _ after)
    as [ms tl].
  cbn [List.map concat app fst snd].
  eexists. split; [reflexivity|].
  rewrite (numbered_senses_length
             (fun gm => default [] (Re.group 1 (snd gm)))).
  cbn [length]. rewrite length_map. split; [reflexivity|].
  destruct ms; discriminate.
Qed.

Lemma lead_text_search (text : str) :
  lead_text text
  = match Re.search_from Gundert.sense_pattern false 0 text with
    | Some (gap, _, _) => gap
    | None => text
    end.
Proof.
  unfold lead_text, Re.re_search.
  destruct (Re.search_from Gundert.sense_pattern false 0 text)
    as [[[gap m] after]|] eqn:E; [|reflexivity].
  simpl. apply search_gap in E as [-> _]. rewrite Nat.sub_0_r. reflexivity.
Qed.



(** In the TEI dialect an entry never has an empty headword. *)
Lemma gundert_headword_nonempty (text page_num : str) (e : Gundert.Entry) :
  Gundert.extract_entry text page_num = Some e ->
  Gundert.malayalam_hw e <> [].
Proof.
  unfold Gundert.extract_entry, Re.re_match, Re.match_at.
  destruct (Re.rx Gundert.entry_pattern _ _ _) as [[cu g]|] eqn:E;
    [|discriminate].
  cbn [fmap option_fmap option_map fst].
  destruct (length _ <? 3); [discriminate|].
  intros [= <-]. cbn [Gundert.malayalam_hw]. unfold Re.group.
  cbn [Re.m_groups].
  unfold Gundert.entry_pattern in E. cbn [Re.seqs] in E.
  rewrite rx_bol_start in E.
  apply first_group_nonempty in E as (c & t & ->); [discriminate|].
  apply (bool_decide_unpack _). vm_compute. exact I.
Qed.

End Senses.

Section ConcreteSenses.
#[local] Existing Instance ucd_basic.





End ConcreteSenses.

(** ** Canonical markers *)



(** ** White space *)

Lemma collapse_no_space (s : str) : no_space s -> collapse s = s.
Proof.
  induction 1 as [|c t Hc _ IH]; simpl; [reflexivity|].
  rewrite Hc, IH. reflexivity.
Qed.

Lemma collapse_gap (gap s : str) :
  no_space gap -> collapse (gap ++ s) = gap ++ collapse s.
Proof.
  induction 1 as [|c t Hc _ IH]; simpl; [reflexivity|].
  rewrite Hc, IH. reflexivity.
Qed.

Lemma collapse_run (w after : str) :
  w <> [] -> all_space w ->
  match after with d :: _ => Py.is_space d = false | [] => True end ->
  collapse (w ++ after) = 0x20%N :: collapse after.
Proof.
  intros Hne Hw Ha. induction Hw as [|c w Hc Hw IH]; [congruence|].
  destruct w as [|c' w'].
  - simpl. rewrite Hc. destruct after as [|d after']; [reflexivity|].
    rewrite Ha. reflexivity.
  - change (collapse ((c :: c' :: w') ++ after))
      with (if Py.is_space c
            then (if Py.is_space c' then collapse ((c' :: w') ++ after)
                  else 0x20%N :: collapse ((c' :: w') ++ after))
            else c :: collapse ((c' :: w') ++ after)).
    apply Forall_cons in Hw as [Hc' Hw].
    rewrite Hc, Hc'. apply IH. discriminate.
Qed.

Lemma ws_normal_collapse (s : str) : ws_normal (collapse s).
Proof.
  induction s as [|c t IH]; [exact I|].
  simpl. destruct (Py.is_space c) eqn:Hc.
  - destruct t as [|d t']; [simpl; auto|].
    destruct (Py.is_space d) eqn:Hd; [exact IH|].
    split; [|exact IH]. intros _. split; [reflexivity|].
    simpl. rewrite Hd. exact Hd.
  - split; [|exact IH]. rewrite Hc. discriminate.
Qed.

Lemma collapse_ws_normal (s : str) : ws_normal s -> collapse s = s.
Proof.
  induction s as [|c t IH]; [reflexivity|].
  intros [Hc Ht]. simpl. destruct (Py.is_space c).
  - destruct (Hc eq_refl) as [-> Hd].
    destruct t as [|d t']; [reflexivity|].
    rewrite Hd, IH by exact Ht. reflexivity.
  - rewrite IH by exact Ht. reflexivity.
Qed.

Lemma ws_normal_suffix (a b : str) : ws_normal (a ++ b) -> ws_normal b.
Proof.
  induction a as [|c a IH]; [auto|]. intros [_ H]. exact (IH H).
Qed.

Lemma ws_normal_prefix (a b : str) : ws_normal (a ++ b) -> ws_normal a.
Proof.
  induction a as [|c a IH]; [intros _; exact I|].
  intros [Hc H]. split; [|exact (IH H)].
  intros Hs. destruct (Hc Hs) as [-> Hd]. split; [reflexivity|].
  destruct a; [exact I|exact Hd].
Qed.

Lemma ws_normal_strip (s : str) : ws_normal s -> ws_normal (Py.strip s).
Proof.
  intros H. unfold Py.strip.
  destruct (lstrip_suffix s) as (w & Hw & _).
  rewrite Hw in H. apply ws_normal_suffix in H.
  destruct (rstrip_prefix (Py.lstrip s)) as (w' & Hw' & _).
  rewrite Hw' in H. apply ws_normal_prefix in H. exact H.
Qed.

Lemma final_cont (i : nat) (cu : Re.cursor) (g : Re.caps) :
  (fun cu g => if false && (Re.pos cu =? i) then None else Some (cu, g)) cu g
  = Some (cu, g).
Proof. reflexivity. Qed.

(** The leftmost run of white space, found by [r'\s+']. *)
Lemma search_spaces (s : str) :
  forall i,
    match Re.search_from Gundert.spaces_pattern false i s with
    | None => no_space s
    | Some (gap, m, after) =>
      exists w, s = gap ++ w ++ after /\ no_space gap
                /\ w <> [] /\ all_space w
                /\ match after with
                   | d :: _ => Py.is_space d = false
                   | [] => True
                   end
                /\ Re.m_end m = Re.m_start m + length w
    end.
Proof.
  induction s as [|c t IH]; intros i.
  - cbn [Re.search_from]. unfold Re.match_at, Gundert.spaces_pattern, Re.space.
    rewrite rx_plus_chr. constructor.
  - cbn [Re.search_from]. unfold Re.match_at at 1.
    unfold Gundert.spaces_pattern at 1, Re.space at 1.
    rewrite rx_plus_chr.
    destruct (Py.is_space c) eqn:Hc.
    + destruct (lstrip_suffix t) as (w & Hw & Hs).
      pose proof (lstrip_head _ (lstrip_idem t)) as Hh.
      assert (Hg : greedy Py.is_space
                     (fun cu g => if false && (Re.pos cu =? i) then None
                                  else Some (cu, g)) (S i) t []
                   = Some (Re.Cursor (S i + length w) (Py.lstrip t), [])).
      { rewrite Hw at 1.
        destruct (Py.lstrip t) as [|d t'] eqn:Hl.
        - rewrite app_nil_r. apply greedy_run_end; [exact Hs|reflexivity].
        - apply greedy_run; [exact Hs|exact Hh|reflexivity]. }
      rewrite Hg. cbn [Re.pos Re.rest Re.m_end Re.m_start].
      exists (c :: w). split; [simpl; congruence|].
      split; [constructor|]. split; [discriminate|].
      split; [constructor; assumption|]. split; [exact Hh|].
      simpl. lia.
    + specialize (IH (S i)).
      destruct (Re.search_from Gundert.spaces_pattern false (S i) t)
        as [[[gap m] after]|].
      * destruct IH as (w & -> & Hg & Hne & Hw & Ha & Hm).
        exists w. split; [reflexivity|].
        split; [constructor; assumption|]. auto.
      * constructor; assumption.
Qed.

Lemma scan_spaces (n : nat) :
  forall s i, length s < n ->
    exists ms tl,
      Re.scan n Gundert.spaces_pattern false i s = (ms, tl)
      /\ concat (List.map (fun gm => fst gm ++ [0x20%N]) ms) ++ tl
         = collapse s.
Proof.
  induction n as [|n IH]; intros s i Hn; [lia|].
  cbn [Re.scan]. pose proof (search_spaces s i) as H.
  destruct (Re.search_from Gundert.spaces_pattern false i s)
    as [[[gap m] after]|].
  - destruct H as (w & -> & Hg & Hne & Hw & Ha & Hm).
    replace (Re.m_end m =? Re.m_start m) with false.
    2:{ symmetry. apply Nat.eqb_neq. destruct w; [congruence|].
        simpl in Hm. lia. }
    destruct (IH after (Re.m_end m)) as (ms & tl & -> & Hc).
    { rewrite !length_app in Hn. destruct w; [congruence|].
      simpl in Hn. lia. }
    exists ((gap, m) :: ms), tl. split; [reflexivity|].
    cbn [List.map concat fst]. rewrite <- !app_assoc, Hc.
    rewrite collapse_gap, collapse_run by assumption. reflexivity.
  - exists [], s. split; [reflexivity|].
    simpl. symmetry. apply collapse_no_space, H.
Qed.

(** [re.sub(r'\s+', ' ', s)] collapses every run of white space. *)
Lemma re_sub_spaces (s : str) :
  Re.re_sub Gundert.spaces_pattern (u " ") s = collapse s.
Proof.
  unfold Re.re_sub, Re.scan_all.
  destruct (scan_spaces (S (length s)) s 0) as (ms & tl & -> & H); [lia|].
  exact H.
Qed.

(** ** Line breaks and the normalizer *)

Lemma lb_pair_begins : begins_with Gundert.lb_pair_pattern 0x3C%N.
Proof.
  intros k i s g H.
  destruct s as [|c t]; [reflexivity|].
  unfold Gundert.lb_pair_pattern.
  change (u "<lb") with [0x3C; 0x6C; 0x62]%N.
  cbn [Re.rx Re.Str Re.seqs Re.Lit Re.rest].
  destruct (N.eqb_spec 0x3C c) as [E|_]; [|reflexivity].
  subst c. simpl in H. congruence.
Qed.

Lemma lb_single_begins : begins_with Gundert.lb_single_pattern 0x3C%N.
Proof.
  intros k i s g H.
  destruct s as [|c t]; [reflexivity|].
  unfold Gundert.lb_single_pattern.
  change (u "<lb") with [0x3C; 0x6C; 0x62]%N.
  cbn [Re.rx Re.Str Re.seqs Re.Lit Re.rest].
  destruct (N.eqb_spec 0x3C c) as [E|_]; [|reflexivity].
  subst c. simpl in H. congruence.
Qed.

Lemma re_sub_absent (r : Re.regex) (c0 : char) (repl s : str) :
  begins_with r c0 -> c0 ∉ s -> Re.re_sub r repl s = s.
Proof.
  intros Hr Hs. apply re_sub_no_match. apply (search_absent r c0); assumption.
Qed.

Lemma search_hit (r : Re.regex) (adv : bool) (i : nat) (s : str)
    (m : Re.mobj) (after : str) :
  Re.match_at r adv i s = Some (m, after) ->
  Re.search_from r adv i s = Some ([], m, after).
Proof. intros H. destruct s; simpl; rewrite H; reflexivity. Qed.

Lemma scan_absent (r : Re.regex) (c0 : char) (n i : nat) (s : str) :
  begins_with r c0 -> c0 ∉ s -> Re.scan n r false i s = ([], s).
Proof.
  intros Hr Hs. destruct n; [reflexivity|].
  simpl. rewrite (search_absent r c0) by assumption. reflexivity.
Qed.

(** A subject with a single match: [re.sub] replaces it and keeps the
    text around it. *)
Lemma re_sub_single (r : Re.regex) (c0 : char) (repl a mid b : str) :
  begins_with r c0 -> c0 ∉ a -> c0 ∉ b ->
  (forall i, exists m, Re.match_at r false i (mid ++ b) = Some (m, b)
                       /\ Re.m_end m <> Re.m_start m) ->
  Re.re_sub r repl (a ++ mid ++ b) = a ++ repl ++ b.
Proof.
  intros Hr Ha Hb Hm. unfold Re.re_sub, Re.scan_all. cbn [Re.scan].
  rewrite (search_skip r c0) by assumption.
  destruct (Hm (0 + length a)) as (m & Hm1 & Hm2).
  rewrite (search_hit _ _ _ _ _ _ Hm1). cbn [skipped].
  replace (Re.m_end m =? Re.m_start m) with false
    by (symmetry; apply Nat.eqb_neq; exact Hm2).
  rewrite (scan_absent r c0) by assumption.
  simpl. rewrite !app_nil_r, <- app_assoc. reflexivity.
Qed.

Lemma word_parts (s : str) :
  word s -> plain s /\ no_space s /\ 0x3C%N ∉ s.
Proof.
  unfold word, plain, no_space. intros H.
  split; [|split].
  - eapply Forall_impl; [exact H|]. simpl. tauto.
  - eapply Forall_impl; [exact H|]. simpl. tauto.
  - intros Hin. rewrite Forall_forall in H. apply H in Hin. tauto.
Qed.

Lemma word_app (a b : str) : word a -> word b -> word (a ++ b).
Proof. unfold word. intros Ha Hb. apply Forall_app. auto. Qed.

Lemma match_lb_pair (i : nat) (b : str) :
  exists m,
    Re.match_at Gundert.lb_pair_pattern false i (u "<lb></lb>" ++ b)
    = Some (m, b)
    /\ Re.m_end m <> Re.m_start m.
Proof.
  eexists. split; [vm_compute; reflexivity|].
  cbn [Re.m_end Re.m_start]. lia.
Qed.

Lemma match_lb_single (i : nat) (b : str) :
  exists m,
    Re.match_at Gundert.lb_single_pattern false i (u "<lb/>" ++ b)
    = Some (m, b)
    /\ Re.m_end m <> Re.m_start m.
Proof.
  eexists. split; [vm_compute; reflexivity|].
  cbn [Re.m_end Re.m_start]. lia.
Qed.

(** The pair pattern does not match a self-closing break. *)
Lemma lb_pair_not_single (i : nat) (b : str) :
  0x3C%N ∉ b ->
  Re.match_at Gundert.lb_pair_pattern false i (u "<lb/>" ++ b) = None.
Proof.
  intros Hb. destruct b as [|c b]; [vm_compute; reflexivity|].
  apply not_elem_of_cons in Hb as [Hc _].
  assert (E : (0x3C =? c)%N = false) by (apply N.eqb_neq; exact Hc).
  vm_compute in E. vm_compute. rewrite E. reflexivity.
Qed.

Lemma re_sub_lb_pair_single (a b : str) :
  0x3C%N ∉ a -> 0x3C%N ∉ b ->
  Re.re_sub Gundert.lb_pair_pattern [] (a ++ u "<lb/>" ++ b)
  = a ++ u "<lb/>" ++ b.
Proof.
  intros Ha Hb. apply re_sub_no_match.
  rewrite (search_skip _ _ a _ lb_pair_begins Ha).
  change (u "<lb/>" ++ b) with (0x3C%N :: (u "lb/>" ++ b)).
  cbn [Re.search_from].
  change (0x3C%N :: (u "lb/>" ++ b)) with (u "<lb/>" ++ b).
  rewrite lb_pair_not_single by exact Hb.
  rewrite (search_absent _ _ _ _ lb_pair_begins); [reflexivity|].
  assert (H : 0x3C%N ∉ u "lb/>")
    by (apply (bool_decide_unpack _); vm_compute; exact I).
  intros Hin. apply elem_of_app in Hin as [Hin|Hin]; auto.
Qed.

Lemma truthy_id (s : str) : (if Py.truthy s then s else []) = s.
Proof. destruct s; reflexivity. Qed.

Lemma strip_joined (a b : str) :
  no_space a -> no_space b -> a <> [] -> b <> [] ->
  Py.strip (a ++ u " " ++ b) = a ++ u " " ++ b.
Proof.
  intros Ha Hb Hna Hnb.
  destruct a as [|a0 a']; [congruence|].
  destruct b as [|b0 b' _] using rev_ind; [congruence|].
  apply Forall_cons in Ha as [Ha _].
  apply Forall_app in Hb as [_ Hb]. apply Forall_cons in Hb as [Hb _].
  assert (E : (a0 :: a') ++ u " " ++ b' ++ [b0]
              = a0 :: (a' ++ u " " ++ b') ++ [b0])
    by (simpl; rewrite <- !app_assoc; reflexivity).
  rewrite E. apply strip_between; assumption.
Qed.

Section NormalizerFacts.
Variable get_text : str -> str.
Hypothesis get_text_plain : forall s, plain s -> get_text s = s.

Lemma clean_text_word (s : str) :
  word s ->
  Py.strip (Re.re_sub Gundert.spaces_pattern (u " ") (get_text s)) = s.
Proof.
  intros Hs. destruct (word_parts s Hs) as (Hp & Hn & _).
  rewrite get_text_plain, re_sub_spaces, collapse_no_space by assumption.
  apply strip_no_space, Hn.
Qed.



End NormalizerFacts.

Lemma html_get_text_plain (s : str) : plain s -> Bs4.html_get_text s = s.
Proof.
  unfold Bs4.html_get_text.
  induction 1 as [|c t [H1 H2] _ IH]; simpl; [reflexivity|].
  destruct (N.eqb_spec c 0x3C) as [->|_]; [congruence|].
  destruct (N.eqb_spec c 0x26) as [->|_]; [congruence|].
  simpl. rewrite IH. reflexivity.
Qed.

(** ** Entry lines of the plain-text dialect *)

Lemma malayalam_not_space (c : char) :
  in_range 0xD00 0xD7F c = true -> Py.is_space c = false.
Proof.
  unfold Py.is_space, in_range.
  rewrite andb_true_iff, !N.leb_le.
  rewrite !orb_false_iff, !andb_false_iff, !N.eqb_neq, !N.leb_gt.
  lia.
Qed.

(** Across text without Malayalam characters the white-space loop of the
    marker pattern finds no place where the pattern can go on. *)
Lemma greedy_blocked (k : Re.cont) (x : str) (d : char) (t : str) :
  Forall (fun c => in_range 0xD00 0xD7F c = false) x ->
  Py.is_space d = false -> in_range 0xD00 0xD7F d = false ->
  forall i g,
    greedy Py.is_space (Re.rx (Re.Chr (in_range 0xD00 0xD7F)) k) i
           (x ++ d :: t) g = None.
Proof.
  intros Hx Hd Hm. induction Hx as [|c x Hc _ IH]; intros i g.
  - cbn [app greedy]. rewrite Hd, rx_chr_cons, Hm. reflexivity.
  - cbn [app greedy]. rewrite IH, rx_chr_cons, Hc.
    destruct (Py.is_space c); reflexivity.
Qed.

Lemma pos_end_no_match (c : char) (p2 tl : str) (i : nat) :
  Forall (fun c => in_range 0xD00 0xD7F c = false) (c :: p2) ->
  Re.match_at Bailey.pos_end_pattern false i (c :: p2 ++ ch "." :: tl) = None.
Proof.
  intros H. apply Forall_cons in H as [_ H].
  apply match_at_none. intros k g.
  unfold Bailey.pos_end_pattern. cbn [Re.seqs].
  rewrite rx_seq. unfold Re.Lit at 1. rewrite rx_chr_cons.
  destruct (ch "." =? c)%N; [|reflexivity].
  rewrite rx_seq. unfold Re.space. rewrite rx_plus_chr.
  destruct p2 as [|c' p2']; [reflexivity|].
  cbn [app]. destruct (Py.is_space c'); [|reflexivity].
  apply Forall_cons in H as [_ H].
  apply greedy_blocked; [exact H|reflexivity|reflexivity].
Qed.

Lemma pos_end_hit (sp : str) (t0 : char) (tl : str) (i : nat) :
  sp <> [] -> all_space sp -> in_range 0xD00 0xD7F t0 = true ->
  exists m,
    Re.match_at Bailey.pos_end_pattern false i (ch "." :: sp ++ t0 :: tl)
    = Some (m, tl)
    /\ Re.m_start m = i.
Proof.
  intros Hne Hsp Ht.
  destruct sp as [|s0 sp']; [congruence|].
  apply Forall_cons in Hsp as [Hs0 Hsp].
  unfold Re.match_at, Bailey.pos_end_pattern. cbn [Re.seqs].
  rewrite rx_seq. unfold Re.Lit at 1. rewrite rx_chr_cons.
  change (ch "." =? ch ".")%N with true. cbv iota.
  rewrite rx_seq. unfold Re.space. rewrite rx_plus_chr.
  cbn [app]. rewrite Hs0.
  erewrite greedy_run; [| exact Hsp | apply malayalam_not_space, Ht |].
  2:{ rewrite rx_chr_cons, Ht. reflexivity. }
  eexists. split; reflexivity.
Qed.

Lemma pos_end_search (pos sp : str) (t0 : char) (tl : str) :
  Forall (fun c => in_range 0xD00 0xD7F c = false) pos ->
  sp <> [] -> all_space sp -> in_range 0xD00 0xD7F t0 = true ->
  forall i, exists gap m after,
    Re.search_from Bailey.pos_end_pattern false i
                   (pos ++ ch "." :: sp ++ t0 :: tl)
    = Some (gap, m, after)
    /\ Re.m_start m = i + length pos.
Proof.
  intros Hp Hne Hsp Ht.
  induction pos as [|c p2 IH]; intros i.
  - destruct (pos_end_hit sp t0 tl i Hne Hsp Ht) as (m & Hm & Hs).
    exists [], m, tl. split; [apply search_hit, Hm|]. simpl. lia.
  - cbn [app Re.search_from]. rewrite pos_end_no_match by exact Hp.
    apply Forall_cons in Hp as [_ Hp].
    destruct (IH Hp (S i)) as (gap & m & after & -> & Hs).
    exists (c :: gap), m, after. split; [reflexivity|]. simpl. lia.
Qed.

Section BaileyLines.
Context {U : UnicodeData}.

(** C1, as the code has it.  A line [Head, pos. text.] that is not
    written entirely in upper case (headword without comma and without
    white space around it, marker without Malayalam character and without
    white space around it, white space after the comma and after the
    period of the marker, text beginning with a Malayalam character),
    with or without white space around it such as the line terminator, is
    parsed into the entry with that headword, that marker and the text
    between the period of the marker and the last period, stripped. *)
Theorem parse_entry_line_wellformed (w1 Head pos sp0 sp T w2 : str)
    (t0 : char) (n : nat) :
  all_space w1 -> all_space w2 ->
  ch "," ∉ Head -> Py.strip Head = Head ->
  all_space sp0 ->
  Py.strip pos = pos ->
  Forall (fun c => in_range 0xD00 0xD7F c = false) pos ->
  sp <> [] -> all_space sp ->
  in_range 0xD00 0xD7F t0 = true ->
  Py.isupper (Head ++ u "," ++ sp0 ++ pos ++ u "." ++ sp ++ (t0 :: T) ++ u ".")
  = false ->
  exists e,
    Bailey.parse_entry_line
      (w1 ++ (Head ++ u "," ++ sp0 ++ pos ++ u "." ++ sp ++ (t0 :: T)
                   ++ u ".") ++ w2) n
    = Some e
    /\ Bailey.headword e = Head
    /\ Bailey.pos e = pos
    /\ Bailey.definitions e = Py.strip (t0 :: T).
Proof.
  intros Hw1 Hw2 Hcomma HHead Hsp0 Hpos Hnm Hne Hsp Ht0 Hup.
  change (u ",") with [ch ","] in *. change (u ".") with [ch "."] in *.
  set (defs := t0 :: T ++ [ch "."]).
  set (rest := pos ++ ch "." :: sp ++ defs).
  set (line := Head ++ ch "," :: sp0 ++ rest).
  assert (El : Head ++ [ch ","] ++ sp0 ++ pos ++ [ch "."] ++ sp ++ (t0 :: T) ++ [ch "."] = line) by reflexivity.
  rewrite El in *. clear El.
  assert (Ht0s : Py.is_space t0 = false) by (apply malayalam_not_space, Ht0).
  assert (Hdefs : Py.strip defs = defs).
  { apply strip_between; [exact Ht0s|reflexivity]. }
  destruct (strip_fixed _ HHead) as [HlH _].
  destruct (strip_fixed _ Hpos) as [Hlp _].
  assert (Hrest : Py.strip (sp0 ++ rest) = rest).
  { unfold Py.strip. rewrite lstrip_all_space by exact Hsp0.
    assert (Hl : Py.lstrip rest = rest).
    { unfold rest. destruct pos as [|p0 pos']; [reflexivity|].
      apply lstrip_app; [discriminate|exact Hlp]. }
    rewrite Hl. unfold rest, defs.
    replace (pos ++ ch "." :: sp ++ t0 :: T ++ [ch "."])
      with ((pos ++ ch "." :: sp ++ t0 :: T) ++ [ch "."])
      by (rewrite <- !app_assoc; simpl; rewrite <- !app_assoc; reflexivity).
    apply rstrip_snoc_nonspace. reflexivity. }
  assert (Hline : Py.strip line = line).
  { unfold Py.strip.
    assert (Hl : Py.lstrip line = line).
    { unfold line. destruct Head as [|h0 Head']; [reflexivity|].
      apply lstrip_app; [discriminate|exact HlH]. }
    rewrite Hl. unfold line, rest, defs.
    replace (Head ++ ch "," :: sp0 ++ pos ++ ch "." :: sp ++ t0 :: T ++ [ch "."])
      with ((Head ++ ch "," :: sp0 ++ pos ++ ch "." :: sp ++ t0 :: T) ++ [ch "."])
      by (repeat (rewrite <- !app_assoc; simpl); reflexivity).
    apply rstrip_snoc_nonspace. reflexivity. }
  assert (Htr : Py.truthy line = true).
  { unfold line. destruct Head; reflexivity. }
  assert (Hpad : Py.strip (w1 ++ line ++ w2) = line).
  { destruct (strip_fixed _ Hline) as [Hl Hr].
    unfold Py.strip. rewrite lstrip_all_space by exact Hw1.
    rewrite lstrip_app; [|destruct line; [discriminate Htr|discriminate]
                         |exact Hl].
    rewrite rstrip_all_space by exact Hw2. exact Hr. }
  unfold Bailey.parse_entry_line. rewrite Hpad.
  rewrite Htr, Hup. cbn [negb orb].
  assert (Efind : Py.find (ch ",") line = Some (length Head))
    by (apply find_app, Hcomma).
  assert (Etake : take (length Head) line = Head)
    by (apply take_app_length).
  assert (Edrop : drop (length Head + 1) line = sp0 ++ rest)
    by (unfold line; rewrite drop_app_add; reflexivity).
  rewrite Efind, Etake, Edrop, Hrest.
  destruct (pos_end_search pos sp t0 (T ++ [ch "."]) Hnm Hne Hsp Ht0 0)
    as (gap & m & after & Hs & Hm).
  unfold Re.re_search. fold defs in Hs. fold rest in Hs. rewrite Hs.
  cbn [fmap option_fmap option_map fst snd]. rewrite Hm. cbn [Nat.add].
  assert (Etp : take (length pos) rest = pos) by (apply take_app_length).
  assert (Edp : drop (length pos + 1) rest = sp ++ defs)
    by (unfold rest; rewrite drop_app_add; reflexivity).
  rewrite Etp, Edp.
  assert (Esd : Py.strip (sp ++ defs) = defs).
  { unfold Py.strip. rewrite lstrip_all_space by exact Hsp.
    exact Hdefs. }
  rewrite Esd.
  assert (Eend : Py.endswith defs [ch "."] = true).
  { unfold defs. change (t0 :: T ++ [ch "."]) with ((t0 :: T) ++ [ch "."]).
    apply endswith_snoc. }
  change (u ".") with [ch "."]. rewrite Eend.
  assert (Edl : Py.drop_last defs = t0 :: T).
  { unfold defs. change (t0 :: T ++ [ch "."]) with ((t0 :: T) ++ [ch "."]).
    apply drop_last_snoc. }
  rewrite Edl.
  eexists. split; [reflexivity|].
  unfold Bailey.BaileyEntry_init.
  cbn [Bailey.headword Bailey.pos Bailey.definitions].
  rewrite !strip_idem, HHead, Hpos, truthy_id.
  repeat split; reflexivity.
Qed.
End BaileyLines.

Section ConcreteLines.
#[local] Existing Instance ucd_basic.

Lemma parse_entry_line_wellformed_witness :
  exists e,
    Bailey.parse_entry_line (u "A, art. ഒരു." ++ [0x0A%N]) 1 = Some e
    /\ Bailey.headword e = u "A"
    /\ Bailey.pos e = u "art"
    /\ Bailey.definitions e = u "ഒരു".
Proof.
  change (u "A, art. ഒരു." ++ [0x0A%N])
    with ([] ++ (u "A" ++ u "," ++ u " " ++ u "art" ++ u "." ++ u " "
                   ++ (0xD12%N :: u "രു") ++ u ".") ++ [0x0A%N]).
  change (u "ഒരു") with (Py.strip (0xD12%N :: u "രു")).
  apply (parse_entry_line_wellformed
           [] (u "A") (u "art") (u " ") (u " ") (u "രു") [0x0A%N] 0xD12%N 1).
  - constructor.
  - repeat constructor.
  - apply (bool_decide_unpack _). vm_compute. exact I.
  - vm_compute. reflexivity.
  - repeat constructor.
  - vm_compute. reflexivity.
  - repeat constructor.
  - discriminate.
  - repeat constructor.
  - reflexivity.
  - vm_compute. reflexivity.
Defined.

(** C1 fails as stated: a line of the stated form written entirely in
    upper case is taken for a section header and gives no entry. *)
Lemma parse_entry_line_upper_case :
  u "AB, S. അ." = u "AB" ++ u ", " ++ u "S" ++ u "." ++ u " " ++ u "അ" ++ u "."
  /\ Bailey.parse_entry_line (u "AB, S. അ.") 1 = None.
Proof. split; vm_compute; reflexivity. Qed.





End ConcreteLines.

(** ** Entries of the plain-text dialect *)

Lemma elem_of_lstrip (x : char) (s : str) : x ∈ Py.lstrip s -> x ∈ s.
Proof.
  destruct (lstrip_suffix s) as (w & Hw & _). intros H.
  rewrite Hw. apply elem_of_app. auto.
Qed.

Lemma elem_of_rstrip (x : char) (s : str) : x ∈ Py.rstrip s -> x ∈ s.
Proof.
  destruct (rstrip_prefix s) as (w & Hw & _). intros H.
  rewrite Hw. apply elem_of_app. auto.
Qed.

Lemma elem_of_strip (x : char) (s : str) : x ∈ Py.strip s -> x ∈ s.
Proof. intros H. apply elem_of_lstrip, elem_of_rstrip, H. Qed.

Lemma find_Some_take (c : char) (s : str) :
  forall i, Py.find c s = Some i -> c ∉ take i s.
Proof.
  induction s as [|x t IH]; intros i; simpl; [discriminate|].
  destruct (N.eqb_spec x c) as [->|Hne].
  - intros [= <-]. simpl. apply not_elem_of_nil.
  - destruct (Py.find c t) as [j|]; [|discriminate].
    intros [= <-]. simpl. apply not_elem_of_cons. split; [congruence|].
    apply IH. reflexivity.
Qed.

Lemma find_None (c : char) (s : str) : c ∉ s -> Py.find c s = None.
Proof.
  induction s as [|x t IH]; simpl; [reflexivity|]. intros H.
  apply not_elem_of_cons in H as [Hx Ht].
  destruct (N.eqb_spec x c) as [->|_]; [congruence|].
  rewrite IH by exact Ht. reflexivity.
Qed.

Lemma elem_of_take_str (x : char) (n : nat) (s : str) : x ∈ take n s -> x ∈ s.
Proof. intros H. rewrite <- (take_drop n s). apply elem_of_app. auto. Qed.

Lemma elem_of_drop_str (x : char) (n : nat) (s : str) : x ∈ drop n s -> x ∈ s.
Proof. intros H. rewrite <- (take_drop n s). apply elem_of_app. auto. Qed.

Lemma BaileyEntry_init_stripped (hw p d : str) (n : nat) :
  let e := Bailey.BaileyEntry_init hw p d n in
  Py.strip (Bailey.headword e) = Bailey.headword e
  /\ Py.strip (Bailey.pos e) = Bailey.pos e
  /\ Py.strip (Bailey.definitions e) = Bailey.definitions e.
Proof.
  unfold Bailey.BaileyEntry_init.
  cbn [Bailey.headword Bailey.pos Bailey.definitions].
  split; [apply strip_idem|]. split; [|apply strip_idem].
  destruct (Py.truthy p); [apply strip_idem|reflexivity].
Qed.

Lemma greedy_inv (p : char -> bool) (k : Re.cont) (s : str) :
  forall i g res,
    greedy p k i s g = Some res ->
    exists w t, s = w ++ t /\ Forall (fun c => p c = true) w
                /\ k (Re.Cursor (i + length w) t) g = Some res.
Proof.
  induction s as [|c s IH]; intros i g res; simpl.
  - intros H. exists [], []. rewrite Nat.add_0_r. auto.
  - destruct (p c) eqn:Hc.
    + destruct (greedy p k (S i) s g) as [m|] eqn:E.
      * intros [= ->]. apply IH in E as (w & t & -> & Hw & Hk).
        exists (c :: w), t. split; [reflexivity|]. split; [auto|].
        simpl. rewrite <- Nat.add_succ_comm. exact Hk.
      * intros H. exists [], (c :: s). rewrite Nat.add_0_r. auto.
    + intros H. exists [], (c :: s). rewrite Nat.add_0_r. auto.
Qed.

Lemma search_from_inv (r : Re.regex) (s : str) :
  forall adv i gap m after,
    Re.search_from r adv i s = Some (gap, m, after) ->
    exists s' adv',
      s = gap ++ s'
      /\ Re.match_at r adv' (i + length gap) s' = Some (m, after).
Proof.
  induction s as [|c t IH]; intros adv i gap m after; simpl.
  - destruct (Re.match_at r adv i []) as [[m' a']|] eqn:E; [|discriminate].
    intros [= <- <- <-]. exists [], adv. rewrite Nat.add_0_r. auto.
  - destruct (Re.match_at r adv i (c :: t)) as [[m' a']|] eqn:E.
    + intros [= <- <- <-]. exists (c :: t), adv. rewrite Nat.add_0_r. auto.
    + destruct (Re.search_from r false (S i) t) as [[[gap' m'] a']|] eqn:E2;
        [|discriminate].
      intros [= <- <- <-]. apply IH in E2 as (s' & adv' & -> & Hm).
      exists s', adv'. split; [reflexivity|].
      simpl. rewrite <- Nat.add_succ_comm. exact Hm.
Qed.

(** A match of the marker boundary: a period, white space, a Malayalam
    character. *)
Lemma pos_end_match_inv (adv : bool) (i : nat) (s : str) (m : Re.mobj)
    (after : str) :
  Re.match_at Bailey.pos_end_pattern adv i s = Some (m, after) ->
  exists ws c,
    s = ch "." :: ws ++ c :: after /\ ws <> [] /\ all_space ws
    /\ in_range 0xD00 0xD7F c = true /\ Re.m_start m = i.
Proof.
  unfold Re.match_at.
  destruct (Re.rx Bailey.pos_end_pattern _ _ _) as [[cu g]|] eqn:E;
    [|discriminate].
  intros [= <- <-]. revert E.
  unfold Bailey.pos_end_pattern. cbn [Re.seqs].
  rewrite rx_seq. unfold Re.Lit at 1.
  destruct s as [|c0 t]; [discriminate|]. rewrite rx_chr_cons.
  destruct (N.eqb_spec (ch ".") c0) as [<-|_]; [|discriminate].
  rewrite rx_seq. unfold Re.space. rewrite rx_plus_chr.
  destruct t as [|s0 t1]; [discriminate|].
  destruct (Py.is_space s0) eqn:Hs0; [|discriminate].
  intros E. apply greedy_inv in E as (w & t2 & -> & Hw & E).
  destruct t2 as [|c t3]; [discriminate|]. rewrite rx_chr_cons in E.
  destruct (in_range 0xD00 0xD7F c) eqn:Hc; [|discriminate].
  destruct (adv && _); [discriminate|]. injection E as <- <-.
  exists (s0 :: w), c. split; [reflexivity|]. split; [discriminate|].
  split; [constructor; assumption|]. auto.
Qed.

Lemma pos_end_search_inv (s : str) (m : Re.mobj) :
  Re.re_search Bailey.pos_end_pattern s = Some m ->
  exists gap ws c after,
    s = gap ++ ch "." :: ws ++ c :: after /\ ws <> [] /\ all_space ws
    /\ in_range 0xD00 0xD7F c = true /\ Re.m_start m = length gap.
Proof.
  unfold Re.re_search.
  destruct (Re.search_from Bailey.pos_end_pattern false 0 s)
    as [[[gap m'] after]|] eqn:E; [|discriminate].
  intros [= <-]. apply search_from_inv in E as (s' & adv' & -> & E).
  apply pos_end_match_inv in E as (ws & c & -> & Hne & Hws & Hc & Hm).
  exists gap, ws, c, after. auto.
Qed.

Lemma endswith_inv (s : str) (c : char) :
  Py.endswith s [c] = true -> exists s', s = s' ++ [c].
Proof.
  unfold Py.endswith. destruct s as [|x s' _] using rev_ind; [discriminate|].
  rewrite rev_unit. simpl. destruct (N.eqb_spec c x) as [->|_]; [|discriminate].
  intros _. eauto.
Qed.

Lemma strip_keeps_head (c : char) (t : str) :
  Py.is_space c = false -> exists t', Py.strip (c :: t) = c :: t'.
Proof.
  intros Hc. unfold Py.strip. rewrite lstrip_nonspace by exact Hc.
  apply rstrip_keeps_head, Hc.
Qed.

(** No marker of [POS_MAPPING] is mapped to itself. *)
Lemma pos_mapping_no_fixpoint (k v : str) :
  Bailey.POS_MAPPING !! k = Some v -> v <> k.
Proof.
  unfold Bailey.POS_MAPPING. intros H.
  apply elem_of_list_to_map_2 in H. revert H.
  match goal with |- (k, v) ∈ ?l -> _ =>
    assert (Hall : Forall (fun kv : str * str => kv.2 <> kv.1) l)
      by (apply (bool_decide_unpack _); vm_compute; exact I)
  end.
  intros H. rewrite Forall_forall in Hall. exact (Hall _ H).
Qed.

Lemma pos_unmapped_iff (hw p d : str) (n : nat) :
  let e := Bailey.BaileyEntry_init hw p d n in
  Bailey.pos_normalized e = Bailey.pos e
  <-> Bailey.POS_MAPPING !! Bailey.pos e = None.
Proof.
  unfold Bailey.BaileyEntry_init.
  cbn [Bailey.pos Bailey.pos_normalized].
  set (q := if Py.truthy p then Py.strip p else []).
  destruct (Bailey.POS_MAPPING !! q) as [v|] eqn:E; simpl.
  - split; [|discriminate]. intros ->.
    exfalso. exact (pos_mapping_no_fixpoint _ _ E eq_refl).
  - split; reflexivity.
Qed.

(** X5.  The test [entry.pos_normalized == entry.pos] of the reading loop
    holds exactly for the entries whose marker has no entry in
    [POS_MAPPING]: no marker of the table is mapped to itself. *)
Theorem unknown_pos_exact (hw p d : str) (n : nat) :
  let e := Bailey.BaileyEntry_init hw p d n in
  Bailey.pos_normalized e = Bailey.pos e
  <-> Bailey.POS_MAPPING !! Bailey.pos e = None.
Proof. exact (pos_unmapped_iff hw p d n). Qed.

Section BaileyEntries.
Context {U : UnicodeData}.

(** What [parse_entry_line] has found when it returns an entry. *)
Lemma parse_entry_line_inv (line : str) (n : nat) (e : Bailey.BaileyEntry) :
  Bailey.parse_entry_line line n = Some e ->
  exists comma_pos m hw p d,
    Py.truthy (Py.strip line) = true
    /\ Py.isupper (Py.strip line) = false
    /\ Py.find (ch ",") (Py.strip line) = Some comma_pos
    /\ hw = Py.strip (take comma_pos (Py.strip line))
    /\ Re.re_search Bailey.pos_end_pattern
         (Py.strip (drop (comma_pos + 1) (Py.strip line))) = Some m
    /\ p = Py.strip (take (Re.m_start m)
                          (Py.strip (drop (comma_pos + 1) (Py.strip line))))
    /\ d = (let d0 := Py.strip (drop (Re.m_start m + 1)
                          (Py.strip (drop (comma_pos + 1) (Py.strip line)))) in
            if Py.endswith d0 (u ".") then Py.strip (Py.drop_last d0) else d0)
    /\ e = Bailey.BaileyEntry_init hw p d n.
Proof.
  unfold Bailey.parse_entry_line.
  destruct (Py.truthy (Py.strip line)) eqn:Ht; [|discriminate].
  destruct (Py.isupper (Py.strip line)) eqn:Hu; [discriminate|].
  cbn [negb orb].
  destruct (Py.find (ch ",") (Py.strip line)) as [cp|] eqn:Hf; [|discriminate].
  destruct (Re.re_search Bailey.pos_end_pattern _) as [m|] eqn:Hs;
    [|discriminate].
  intros [= <-]. exists cp, m. eexists _, _, _.
  repeat split; try reflexivity. exact Hs.
Qed.

Lemma parse_entry_line_number (line : str) (n : nat) (e : Bailey.BaileyEntry) :
  Bailey.parse_entry_line line n = Some e -> Bailey.line_number e = n.
Proof.
  intros H. apply parse_entry_line_inv in H
    as (cp & m & hw & p & d & _ & _ & _ & _ & _ & _ & _ & ->).
  reflexivity.
Qed.

(** X1.  The fields of a parsed entry carry no white space at either end,
    and the entry carries the line number it was parsed with. *)
Theorem bailey_entry_stripped (line : str) (n : nat) (e : Bailey.BaileyEntry) :
  Bailey.parse_entry_line line n = Some e ->
  Py.strip (Bailey.headword e) = Bailey.headword e
  /\ Py.strip (Bailey.pos e) = Bailey.pos e
  /\ Py.strip (Bailey.definitions e) = Bailey.definitions e
  /\ Bailey.line_number e = n.
Proof.
  intros H. apply parse_entry_line_inv in H
    as (cp & m & hw & p & d & _ & _ & _ & _ & _ & _ & _ & ->).
  destruct (BaileyEntry_init_stripped hw p d n) as (H1 & H2 & H3).
  auto.
Qed.

(** X2.  The headword of a parsed entry contains no comma: the line is cut
    at its first comma. *)
Theorem bailey_headword_no_comma (line : str) (n : nat)
    (e : Bailey.BaileyEntry) :
  Bailey.parse_entry_line line n = Some e -> ch "," ∉ Bailey.headword e.
Proof.
  intros H. apply parse_entry_line_inv in H
    as (cp & m & hw & p & d & _ & _ & Hf & -> & _ & _ & _ & ->).
  cbn [Bailey.BaileyEntry_init Bailey.headword].
  intros Hin. do 2 apply elem_of_strip in Hin.
  exact (find_Some_take _ _ _ Hf Hin).
Qed.

(** X3.  The definitions of a parsed entry are never empty: they begin
    with a character of the Malayalam block, the one that ended the
    grammar marker. *)
Theorem bailey_definitions_malayalam (line : str) (n : nat)
    (e : Bailey.BaileyEntry) :
  Bailey.parse_entry_line line n = Some e ->
  exists c t, Bailey.definitions e = c :: t
              /\ in_range 0xD00 0xD7F c = true.
Proof.
  intros H. apply parse_entry_line_inv in H
    as (cp & m & hw & p & d & _ & _ & _ & _ & Hs & _ & Hd & ->).
  apply pos_end_search_inv in Hs
    as (gap & ws & c & after & Hr & _ & Hws & Hc & Hm).
  pose proof (malayalam_not_space c Hc) as Hsp.
  rewrite Hr, Hm in Hd.
  rewrite drop_app_add in Hd. cbn [skipn] in Hd. rewrite ?drop_0 in Hd.
  assert (E0 : Py.strip (ws ++ c :: after) = Py.strip (c :: after)).
  { unfold Py.strip. rewrite lstrip_all_space by exact Hws. reflexivity. }
  rewrite E0 in Hd.
  destruct (strip_keeps_head c after Hsp) as (t' & Ht'). rewrite Ht' in Hd.
  cbn [Bailey.BaileyEntry_init Bailey.definitions].
  assert (Hd' : exists t'', d = c :: t'').
  { cbv zeta in Hd. destruct (Py.endswith (c :: t') (u ".")) eqn:He.
    - change (u ".") with [ch "."] in He.
      apply endswith_inv in He as (s' & He).
      destruct s' as [|x s'].
      + cbn [app] in He. injection He as -> _. vm_compute in Hc.
        discriminate Hc.
      + cbn [app] in He. injection He as <- ->.
        assert (Hd2 : d = Py.strip (Py.drop_last ((c :: s') ++ [ch "."])))
          by exact Hd.
        clear Hd. rename Hd2 into Hd.
        rewrite drop_last_snoc in Hd.
        destruct (strip_keeps_head c s' Hsp) as (t2 & Ht2).
        rewrite Ht2 in Hd. eauto.
    - eauto. }
  destruct Hd' as (t'' & ->).
  destruct (strip_keeps_head c t'' Hsp) as (t3 & ->). eauto.
Qed.

(** X4.  A line without a comma, or without a character of the Malayalam
    block, gives no entry. *)
Theorem parse_entry_line_rejects (line : str) (n : nat) :
  ch "," ∉ line \/ Forall (fun c => in_range 0xD00 0xD7F c = false) line ->
  Bailey.parse_entry_line line n = None.
Proof.
  intros H.
  destruct (Bailey.parse_entry_line line n) as [e|] eqn:E; [|reflexivity].
  exfalso. apply parse_entry_line_inv in E
    as (cp & m & hw & p & d & _ & _ & Hf & _ & Hs & _ & _ & _).
  destruct H as [H|H].
  - assert (Hn : ch "," ∉ Py.strip line)
      by (intros Hin; apply H, elem_of_strip, Hin).
    rewrite find_None in Hf by exact Hn. discriminate.
  - apply pos_end_search_inv in Hs
      as (gap & ws & c & after & Hr & _ & _ & Hc & _).
    assert (Hin : c ∈ line).
    { apply elem_of_strip, (elem_of_drop_str _ (cp + 1)), elem_of_strip.
      rewrite Hr. apply elem_of_app. right.
      apply elem_of_cons. right. apply elem_of_app. right.
      apply elem_of_cons. left. reflexivity. }
    rewrite Forall_forall in H. rewrite (H c Hin) in Hc. discriminate.
Qed.

(** ** The reading loop of the plain-text converter *)

Lemma parse_not_header (line : str) (n : nat) (e : Bailey.BaileyEntry) :
  Bailey.parse_entry_line line n = Some e -> is_header line = false.
Proof.
  intros H. apply parse_entry_line_inv in H
    as (cp & m & hw & p & d & Ht & Hu & _). unfold is_header.
  rewrite Ht, Hu. reflexivity.
Qed.

Lemma convert_loop_count (lines : list str) :
  forall acc k,
    let r := Bailey.convert_loop acc k lines in
    length (Bailey.entries r) + length (Bailey.skipped_lines r)
      + length (List.filter is_header lines)
    = length (Bailey.entries acc) + length (Bailey.skipped_lines acc)
      + length lines.
Proof.
  induction lines as [|line more IH]; intros acc k; cbn zeta.
  - simpl. lia.
  - cbn [Bailey.convert_loop List.filter length].
    specialize (IH (Bailey.convert_step acc k line) (S k)).
    cbn zeta in IH. unfold Bailey.convert_step in IH at 3 4.
    destruct (Bailey.parse_entry_line line k) as [e|] eqn:E.
    + rewrite (parse_not_header _ _ _ E).
      cbn [Bailey.entries Bailey.skipped_lines] in IH.
      rewrite length_app in IH. simpl in IH. lia.
    + cbn [Bailey.entries Bailey.skipped_lines] in IH.
      unfold is_header at 1.
      destruct (Py.truthy (Py.strip line)); simpl in *.
      * destruct (Py.isupper (Py.strip line)); simpl in *.
        -- lia.
        -- rewrite length_app in IH. simpl in IH. lia.
      * lia.
Qed.

(** X6.  Every line of the input is accounted for once: it gives an
    entry, or it is recorded as skipped, or it is blank or a header in
    upper case. *)
Theorem convert_lines_accounting (lines : list str) :
  let r := Bailey.convert_lines lines in
  length (Bailey.entries r) + length (Bailey.skipped_lines r)
    + length (List.filter is_header lines)
  = length lines.
Proof.
  cbn zeta. unfold Bailey.convert_lines.
  rewrite convert_loop_count. reflexivity.
Qed.

Lemma omap_enumerate_cons (k : nat) (l : str) (ls : list str) :
  omap parse_numbered (enumerate k (l :: ls))
  = match Bailey.parse_entry_line l k with
    | Some e => e :: omap parse_numbered (enumerate (S k) ls)
    | None => omap parse_numbered (enumerate (S k) ls)
    end.
Proof. reflexivity. Qed.

Lemma convert_loop_entries (lines : list str) :
  forall acc k,
    Bailey.entries (Bailey.convert_loop acc k lines)
    = Bailey.entries acc ++ omap parse_numbered (enumerate k lines).
Proof.
  induction lines as [|line more IH]; intros acc k.
  - simpl. rewrite app_nil_r. reflexivity.
  - cbn [Bailey.convert_loop]. rewrite IH.
    rewrite omap_enumerate_cons.
    unfold Bailey.convert_step.
    destruct (Bailey.parse_entry_line line k) as [e|];
      cbn [Bailey.entries]; [rewrite <- app_assoc|]; reflexivity.
Qed.

Lemma convert_loop_unknown (lines : list str) :
  forall acc k,
    Bailey.entries_with_unknown_pos acc
    = List.map unknown_pos_report
               (List.filter has_unknown_pos (Bailey.entries acc)) ->
    let r := Bailey.convert_loop acc k lines in
    Bailey.entries_with_unknown_pos r
    = List.map unknown_pos_report
               (List.filter has_unknown_pos (Bailey.entries r)).
Proof.
  induction lines as [|line more IH]; intros acc k Hacc; [exact Hacc|].
  cbn [Bailey.convert_loop]. apply IH.
  unfold Bailey.convert_step.
  destruct (Bailey.parse_entry_line line k) as [e|] eqn:E;
    cbn [Bailey.entries Bailey.entries_with_unknown_pos]; [|exact Hacc].
  rewrite List.filter_app, List.map_app, <- Hacc. cbn [List.filter].
  fold (has_unknown_pos e).
  pose proof (parse_entry_line_number _ _ _ E) as Hn.
  destruct (has_unknown_pos e); cbn [List.map].
  - unfold unknown_pos_report. rewrite Hn. reflexivity.
  - rewrite app_nil_r. reflexivity.
Qed.

Lemma enumerate_parsed (k : nat) (ls : list str) :
  Forall (fun e => exists line,
            ls !! (Bailey.line_number e - k) = Some line
            /\ k <= Bailey.line_number e
            /\ Bailey.parse_entry_line line (Bailey.line_number e) = Some e)
         (omap parse_numbered (enumerate k ls))
  /\ StronglySorted lt
       (List.map Bailey.line_number (omap parse_numbered (enumerate k ls)))
  /\ Forall (fun e => k <= Bailey.line_number e)
            (omap parse_numbered (enumerate k ls)).
Proof.
  revert k. induction ls as [|l ls IH]; intros k.
  - repeat split; constructor.
  - destruct (IH (S k)) as (H1 & H2 & H3).
    rewrite omap_enumerate_cons.
    assert (H1' : Forall (fun e => exists line,
                     (l :: ls) !! (Bailey.line_number e - k) = Some line
                     /\ k <= Bailey.line_number e
                     /\ Bailey.parse_entry_line line (Bailey.line_number e)
                        = Some e)
                  (omap parse_numbered (enumerate (S k) ls))).
    { rewrite Forall_forall in H1, H3. apply Forall_forall. intros e He.
      destruct (H1 e He) as (line & Hl & Hk & Hp). specialize (H3 e He).
      exists line. split; [|split; [lia|exact Hp]].
      replace (Bailey.line_number e - k)
        with (S (Bailey.line_number e - S k)) by lia.
      exact Hl. }
    destruct (Bailey.parse_entry_line l k) as [e|] eqn:E.
    + pose proof (parse_entry_line_number _ _ _ E) as Hn.
      split; [|split].
      * constructor; [|exact H1'].
        exists l. rewrite Hn, Nat.sub_diag. auto.
      * cbn [List.map]. constructor; [exact H2|].
        rewrite Hn. apply Forall_forall. intros x Hx.
        apply list_elem_of_In, in_map_iff in Hx as (e' & <- & He').
        rewrite Forall_forall in H3.
        apply list_elem_of_In in He'. specialize (H3 e' He'). lia.
      * constructor; [lia|].
        eapply Forall_impl; [exact H3|]. simpl. intros; lia.
    + split; [exact H1'|]. split; [exact H2|].
      eapply Forall_impl; [exact H3|]. simpl. intros; lia.
Qed.

(** X7.  The entries come in the order of the lines: each is the parse of
    the line whose 1-based number it carries, and the line numbers
    increase strictly along the list. *)
Theorem convert_entries_in_order (lines : list str) :
  let r := Bailey.convert_lines lines in
  Forall (fun e =>
            exists line,
              lines !! (Bailey.line_number e - 1) = Some line
              /\ 1 <= Bailey.line_number e
              /\ Bailey.parse_entry_line line (Bailey.line_number e) = Some e)
         (Bailey.entries r)
  /\ StronglySorted lt (List.map Bailey.line_number (Bailey.entries r)).
Proof.
  cbn zeta. unfold Bailey.convert_lines. rewrite convert_loop_entries.
  cbn [Bailey.entries app].
  destruct (enumerate_parsed 1 lines) as (H1 & H2 & _).
  split; [exact H1|exact H2].
Qed.

(** X8.  An entry is recorded for an unknown grammar marker exactly when
    its marker is not empty and has no entry in [POS_MAPPING]; the record
    holds its line number, its headword and its marker. *)
Theorem unknown_pos_report_exact (lines : list str) (t : nat * str * str) :
  let r := Bailey.convert_lines lines in
  t ∈ Bailey.entries_with_unknown_pos r
  <-> exists e, e ∈ Bailey.entries r
                /\ t = (Bailey.line_number e, Bailey.headword e, Bailey.pos e)
                /\ Bailey.pos e <> []
                /\ Bailey.POS_MAPPING !! Bailey.pos e = None.
Proof.
  cbn zeta. unfold Bailey.convert_lines.
  rewrite convert_loop_unknown by reflexivity.
  rewrite convert_loop_entries. cbn [Bailey.entries app].
  destruct (enumerate_parsed 1 lines) as (Hall & _ & _).
  rewrite list_elem_of_In, in_map_iff.
  assert (Hex : forall e,
             e ∈ omap parse_numbered (enumerate 1 lines) ->
             (has_unknown_pos e = true
              <-> Bailey.pos e <> []
                  /\ Bailey.POS_MAPPING !! Bailey.pos e = None)).
  { intros e He. rewrite Forall_forall in Hall.
    destruct (Hall e He) as (line & _ & _ & Hp).
    apply parse_entry_line_inv in Hp
      as (cp & m & hw & p & d & _ & _ & _ & _ & _ & _ & _ & Hp).
    unfold has_unknown_pos. rewrite andb_true_iff, bool_decide_eq_true.
    rewrite Hp at 2 3. rewrite pos_unmapped_iff. rewrite <- Hp.
    split; intros [H1 H2]; (split; [|exact H2]).
    - destruct (Bailey.pos e); [discriminate|discriminate].
    - destruct (Bailey.pos e); [congruence|reflexivity]. }
  split.
  - intros (e & <- & He). apply filter_In in He as [He Hc].
    apply list_elem_of_In in He. exists e. split; [exact He|].
    split; [reflexivity|]. apply Hex; assumption.
  - intros (e & He & -> & Hne & Hm). exists e. split; [reflexivity|].
    apply filter_In. split; [apply list_elem_of_In, He|].
    apply Hex; auto.
Qed.


End BaileyEntries.

Section ConcreteEntries.
#[local] Existing Instance ucd_basic.

Lemma abandon_parsed :
  Bailey.parse_entry_line
    (u "Abandon, v. a. വിട്ടൊഴിയുന്നു, ത്യജിക്കുന്നു." ++ [0x0A%N]) 7
  = Some (Bailey.BaileyEntry_init (u "Abandon") (u "v. a")
            (u "വിട്ടൊഴിയുന്നു, ത്യജിക്കുന്നു") 7).
Proof. vm_compute. reflexivity. Qed.

Lemma bailey_entry_stripped_witness :
  let e := Bailey.BaileyEntry_init (u "Abandon") (u "v. a")
             (u "വിട്ടൊഴിയുന്നു, ത്യജിക്കുന്നു") 7 in
  Py.strip (Bailey.headword e) = Bailey.headword e
  /\ Py.strip (Bailey.pos e) = Bailey.pos e
  /\ Py.strip (Bailey.definitions e) = Bailey.definitions e
  /\ Bailey.line_number e = 7.
Proof. exact (bailey_entry_stripped _ _ _ abandon_parsed). Defined.

Lemma bailey_headword_no_comma_witness :
  ch "," ∉ Bailey.headword
             (Bailey.BaileyEntry_init (u "Abandon") (u "v. a")
                (u "വിട്ടൊഴിയുന്നു, ത്യജിക്കുന്നു") 7).
Proof. exact (bailey_headword_no_comma _ _ _ abandon_parsed). Defined.

Lemma bailey_definitions_malayalam_witness :
  exists c t,
    Bailey.definitions
      (Bailey.BaileyEntry_init (u "Abandon") (u "v. a")
         (u "വിട്ടൊഴിയുന്നു, ത്യജിക്കുന്നു") 7) = c :: t
    /\ in_range 0xD00 0xD7F c = true.
Proof. exact (bailey_definitions_malayalam _ _ _ abandon_parsed). Defined.

Lemma parse_entry_line_rejects_witness :
  Bailey.parse_entry_line (u "See Abandon.") 3 = None
  /\ Bailey.parse_entry_line (u "Abandon, v. a. to forsake.") 4 = None.
Proof.
  split; apply parse_entry_line_rejects.
  - left. apply (bool_decide_unpack _). vm_compute. exact I.
  - right. apply (bool_decide_unpack _). vm_compute. exact I.
Defined.

End ConcreteEntries.
